(** * Smart Task Assistant: the action-application core

    A shallow embedding of [src/lib/task-utils.ts] (task creation, state
    updates, identifier resolution, filtering) and of the tool executor of
    the agent API route ([processToolCall] and the response loop of
    [callAnthropicAPI] / [callOpenAIAPI]), with the properties the
    specification states about them.

    Conventions of the embedding.
    - A JavaScript string is a Rocq [string]; every character is read as
      one UTF-16 code unit below 256 (ISO-8859-1).  On that range
      [toLowerCase], [trim], [includes], [split] and [parseInt] below agree
      with ECMAScript.
    - A JavaScript number produced by [parseInt] is an integer of [Z], and
      [NaN] is [None].  The source only compares the number with [1] and
      with an array length and subtracts one from it when it is in that
      range; rounding to a double is monotone and exact on array lengths,
      so these comparisons have the same outcome in [Z].
    - An optional property ([completedAt?], [filter?]) is an [option];
      [undefined] is [None].
    - [uuidv4()] and [new Date().toISOString()] read a [World], which is
      threaded through the effectful functions; a thrown JavaScript
      exception is the [Throw] outcome. *)

From Stdlib Require Import Ascii String DecimalString DecimalNat.
From stdpp Require Import base numbers option list strings.

Local Open Scope string_scope.
Local Open Scope Z_scope.

(** ** Strings *)

Module Js.

Definition code (c : ascii) : N := N_of_ascii c.

(** WhiteSpace and LineTerminator code points below 256: TAB, LF, VT, FF,
    CR, SP and NBSP. *)
Definition is_whitespace (c : ascii) : bool :=
  let n := code c in
  ((9 <=? n) && (n <=? 13) || (n =? 32) || (n =? 160))%N.

Definition is_digit (c : ascii) : bool :=
  let n := code c in ((48 <=? n) && (n <=? 57))%N.

(** Characters with a lower-case mapping: A-Z, and U+00C0-U+00DE except the
    multiplication sign U+00D7. *)
Definition is_upper (c : ascii) : bool :=
  let n := code c in
  ((65 <=? n) && (n <=? 90) ||
   (192 <=? n) && (n <=? 222) && negb (n =? 215))%N.

Definition lower_char (c : ascii) : ascii :=
  if is_upper c then ascii_of_N (code c + 32) else c.

(** [String.prototype.toLowerCase] *)
Fixpoint toLowerCase (s : string) : string :=
  match s with
  | EmptyString => EmptyString
  | String c r => String (lower_char c) (toLowerCase r)
  end.

(** [String.prototype.trimStart] *)
Fixpoint trimStart (s : string) : string :=
  match s with
  | EmptyString => EmptyString
  | String c r => if is_whitespace c then trimStart r else s
  end.

(** [String.prototype.trimEnd] *)
Fixpoint trimEnd (s : string) : string :=
  match s with
  | EmptyString => EmptyString
  | String c r =>
      match trimEnd r with
      | EmptyString => if is_whitespace c then EmptyString else String c EmptyString
      | r' => String c r'
      end
  end.

(** [String.prototype.trim] *)
Definition trim (s : string) : string := trimEnd (trimStart s).

(** [s.startsWith(p)] *)
Fixpoint startsWith (s p : string) {struct p} : bool :=
  match p, s with
  | EmptyString, _ => true
  | String _ _, EmptyString => false
  | String a p', String b s' => bool_decide (a = b) && startsWith s' p'
  end.

(** [s.includes(sub)]: [sub] occurs in [s] at some position. *)
Fixpoint includes (s sub : string) : bool :=
  startsWith s sub ||
  match s with
  | EmptyString => false
  | String _ r => includes r sub
  end.

(** [s.split(sep)] for a one-character separator. *)
Fixpoint split (sep : ascii) (s : string) : list string :=
  match s with
  | EmptyString => [EmptyString]
  | String c r =>
      if bool_decide (c = sep) then EmptyString :: split sep r
      else match split sep r with
           | h :: t => String c h :: t
           | [] => [String c EmptyString]
           end
  end.

Definition digit_value (c : ascii) : Z := Z.of_N (code c) - 48.

(** The value of the longest prefix of decimal digits, read from the
    accumulator [acc]. *)
Fixpoint parse_digits (acc : Z) (s : string) : Z :=
  match s with
  | EmptyString => acc
  | String c r =>
      if is_digit c then parse_digits (10 * acc + digit_value c) r else acc
  end.

(** [parseInt(s, 10)]: leading white space is skipped, one sign is
    accepted, then the longest run of decimal digits is read; without a
    digit the result is [NaN].  With radix 10 no [0x] prefix is
    recognised. *)
Definition parseInt (s : string) : option Z :=
  let s1 := trimStart s in
  let '(sign, s2) :=
    match s1 with
    | String "-" r => (-1, r)
    | String "+" r => (1, r)
    | _ => (1, s1)
    end in
  match s2 with
  | String c _ => if is_digit c then Some (sign * parse_digits 0 s2) else None
  | EmptyString => None
  end.

(** [a.join(sep)] *)
Fixpoint join (sep : string) (l : list string) : string :=
  match l with
  | [] => EmptyString
  | [x] => x
  | x :: r => x +:+ sep +:+ join sep r
  end.

(** Truthiness of a possibly undefined string: [undefined] and the empty
    string are falsy. *)
Definition truthy (o : option string) : bool :=
  match o with
  | Some (String _ _) => true
  | _ => false
  end.

(** The template [`"${s}"`]: [s] between two double-quote characters
    (code 34). *)
Definition dquote : string := String (ascii_of_N 34) EmptyString.
Definition quoted (s : string) : string := dquote +:+ s +:+ dquote.

End Js.

(** ** Data model ([types.ts]) *)

(** [type Priority = 'low' | 'medium' | 'high'] *)
Inductive Priority := low | medium | high.

#[global] Instance Priority_eq_dec : EqDecision Priority.
Proof. solve_decision. Defined.

(** The string a priority is at run time. *)
Definition priority_string (p : Priority) : string :=
  match p with low => "low" | medium => "medium" | high => "high" end.

(** [interface Task] *)
Module Task.
Record t := mk {
  id : string;
  title : string;
  priority : Priority;
  category : string;
  completed : bool;
  createdAt : string;
  completedAt : option string
}.
End Task.
Abbreviation Task := Task.t.

#[global] Instance Task_eq_dec : EqDecision Task.
Proof. solve_decision. Defined.

(** [interface TaskState] *)
Module TaskState.
Record t := mk {
  tasks : list Task;
  filter : option string;
  agentMessage : option string
}.
End TaskState.
Abbreviation TaskState := TaskState.t.

(** The properties of a tool call's [input] object that the executor
    reads ([AddTaskParams], [TaskActionParams], [FilterParams]); an absent
    property is [None]. *)
Module Input.
Record t := mk {
  title : option string;
  priority : option Priority;
  category : option string;
  taskIdentifier : option string;
  filterType : option string;
  filterValue : option string
}.
End Input.
Abbreviation Input := Input.t.

(** ** Effects *)

(** The platform the code runs on: the [k]-th call of [uuidv4()] returns
    [uuids k], the [k]-th [new Date()] reads [clock k] milliseconds, and
    [toISOString] is [Date.prototype.toISOString] on a time value. *)
Record World := mkWorld {
  uuids : nat -> string;
  uuid_calls : nat;
  clock : nat -> Z;
  clock_reads : nat;
  toISOString : Z -> string
}.

Inductive Exn := TypeError (what : string).

Inductive Outcome (A : Type) :=
| Return (a : A) (w : World)
| Throw (e : Exn).
Arguments Return {A} a w.
Arguments Throw {A} e.

Definition Eff (A : Type) : Type := World -> Outcome A.

Definition ret {A} (a : A) : Eff A := fun w => Return a w.

Definition bind {A B} (m : Eff A) (k : A -> Eff B) : Eff B :=
  fun w => match m w with
           | Return a w' => k a w'
           | Throw e => Throw e
           end.

Notation "'let*' x ':=' m 'in' k" := (bind m (fun x => k))
  (at level 10, x name, m at level 100, k at level 200).

Definition throw {A} (e : Exn) : Eff A := fun _ => Throw e.

(** [uuidv4()] *)
Definition uuidv4 : Eff string :=
  fun w => Return (uuids w (uuid_calls w))
                  (mkWorld (uuids w) (S (uuid_calls w)) (clock w) (clock_reads w)
                           (toISOString w)).

(** [new Date().getTime()] *)
Definition newDate : Eff Z :=
  fun w => Return (clock w (clock_reads w))
                  (mkWorld (uuids w) (uuid_calls w) (clock w) (S (clock_reads w))
                           (toISOString w)).

(** [new Date(ms).toISOString()] *)
Definition isoString (ms : Z) : Eff string :=
  fun w => Return (toISOString w ms) w.

(** [new Date().toISOString()] *)
Definition nowISOString : Eff string :=
  let* ms := newDate in isoString ms.

(** Calling a string method on a property: on [undefined] the call throws
    a [TypeError]. *)
Definition defined (what : string) (o : option string) : Eff string :=
  match o with
  | Some s => ret s
  | None => throw (TypeError what)
  end.

(** ** Task creation and modification ([task-utils.ts]) *)

Definition createTask (title : string) (priority : Priority) (category : string)
  : Eff Task :=
  let* i := uuidv4 in
  let* now := nowISOString in
  ret (Task.mk i (Js.trim title) priority (Js.trim category) false now None).

Definition addTask (state : TaskState) (task : Task) : TaskState :=
  TaskState.mk (TaskState.tasks state ++ [task])
               (TaskState.filter state) (TaskState.agentMessage state).

(** [{ ...task, completed: true, completedAt: now }] *)
Definition markComplete (now : string) (task : Task) : Task :=
  Task.mk (Task.id task) (Task.title task) (Task.priority task)
          (Task.category task) true (Task.createdAt task) (Some now).

(** [{ ...task, completed: false, completedAt: undefined }] *)
Definition markActive (task : Task) : Task :=
  Task.mk (Task.id task) (Task.title task) (Task.priority task)
          (Task.category task) false (Task.createdAt task) None.

(** The [map] callback of [completeTask] reads the clock once for every
    task whose id matches. *)
Fixpoint completeTasks (taskId : string) (l : list Task) : Eff (list Task) :=
  match l with
  | [] => ret []
  | task :: r =>
      if bool_decide (Task.id task = taskId) then
        let* now := nowISOString in
        let* r' := completeTasks taskId r in
        ret (markComplete now task :: r')
      else
        let* r' := completeTasks taskId r in
        ret (task :: r')
  end.

Definition completeTask (state : TaskState) (taskId : string) : Eff TaskState :=
  let* ts := completeTasks taskId (TaskState.tasks state) in
  ret (TaskState.mk ts (TaskState.filter state) (TaskState.agentMessage state)).

Definition uncompleteTask (state : TaskState) (taskId : string) : TaskState :=
  TaskState.mk
    ((fun task => if bool_decide (Task.id task = taskId) then markActive task else task)
       <$> TaskState.tasks state)
    (TaskState.filter state) (TaskState.agentMessage state).

Definition deleteTask (state : TaskState) (taskId : string) : TaskState :=
  TaskState.mk
    (base.filter (fun task => Task.id task <> taskId) (TaskState.tasks state))
    (TaskState.filter state) (TaskState.agentMessage state).

(** ** Task lookup *)

(** The guard [!isNaN(index) && index >= 1 && index <= tasks.length] of
    [findTaskByIdentifier]; when it holds the result is the array index
    [index - 1]. *)
Definition positional (index : option Z) (len : nat) : option nat :=
  match index with
  | Some n =>
      if (1 <=? n) && (n <=? Z.of_nat len) then Some (Z.to_nat (n - 1)) else None
  | None => None
  end.

Definition findTaskByIdentifier (tasks : list Task) (identifier : string)
  : option Task :=
  let normalized := Js.trim (Js.toLowerCase identifier) in
  let index := Js.parseInt normalized in
  match positional index (length tasks) with
  | Some i => tasks !! i
  | None =>
      if bool_decide (normalized = "last") || bool_decide (normalized = "last task")
      then (if bool_decide (0 < length tasks)%nat then tasks !! (length tasks - 1)%nat else None)
      else if bool_decide (normalized = "first") || bool_decide (normalized = "first task")
      then (if bool_decide (0 < length tasks)%nat then tasks !! 0%nat else None)
      else List.find
             (fun task => Js.includes (Js.toLowerCase (Task.title task)) normalized)
             tasks
  end.

(** ** Filtering *)

Definition filterTasks (tasks : list Task) (filter : option string) : list Task :=
  if negb (Js.truthy filter) || bool_decide (filter = Some "all") then tasks
  else
    match Js.split ":" (default "" filter) with
    | [] => tasks
    | filterType :: rest =>
        let filterValue := head rest in
        let key := Js.toLowerCase filterType in
        if bool_decide (key = "priority") then
          base.filter
            (fun task => Some (priority_string (Task.priority task)) = filterValue)
            tasks
        else if bool_decide (key = "completed") then
          let showCompleted := bool_decide (filterValue = Some "true") in
          base.filter (fun task => Task.completed task = showCompleted) tasks
        else if bool_decide (key = "active") then
          base.filter (fun task => Task.completed task = false) tasks
        else if bool_decide (key = "category") then
          base.filter
            (fun task =>
               Some (Js.toLowerCase (Task.category task))
               = Js.toLowerCase <$> filterValue)
            tasks
        else tasks
    end.

Definition createFilter (filterType filterValue : option string) : option string :=
  if bool_decide (filterType = Some "all") then None
  else if bool_decide (filterType = Some "active") then Some "completed:false"
  else if bool_decide (filterType = Some "completed") then Some "completed:true"
  else if bool_decide (filterType = Some "priority") && Js.truthy filterValue
  then Some ("priority:" +:+ Js.toLowerCase (default "" filterValue))
  else if bool_decide (filterType = Some "category") && Js.truthy filterValue
  then Some ("category:" +:+ Js.toLowerCase (default "" filterValue))
  else None.

(** ** Initial state *)

Definition createInitialState : TaskState := TaskState.mk [] None None.

Definition createDemoState : Eff TaskState :=
  let* now := newDate in
  let* id1 := uuidv4 in
  let* created1 := isoString (now - 3600000) in
  let* id2 := uuidv4 in
  let* created2 := isoString (now - 7200000) in
  let* id3 := uuidv4 in
  let* created3 := isoString (now - 86400000) in
  let* completed3 := isoString (now - 43200000) in
  ret (TaskState.mk
         [ Task.mk id1 "Review pull request" high "work" false created1 None;
           Task.mk id2 "Buy groceries" medium "personal" false created2 None;
           Task.mk id3 "Schedule dentist appointment" low "personal" true
                   created3 (Some completed3) ]
         None
         (Some ("Welcome! Try saying " +:+ Js.quoted "add a task" +:+ " or "
                +:+ Js.quoted "what's urgent?"))).

(** ** The tool executor (agent API route) *)

Module ToolResult.
Record t := mk { state : TaskState; action : option string }.
End ToolResult.
Abbreviation ToolResult := ToolResult.t.

(** [{ ...state, agentMessage: msg }] *)
Definition withMessage (state : TaskState) (msg : string) : TaskState :=
  TaskState.mk (TaskState.tasks state) (TaskState.filter state) (Some msg).

Definition notFoundMessage (identifier : string) : string :=
  "Couldn't find a task matching " +:+ Js.quoted identifier.

(** [processToolCall(toolName, input, state)].  The [console] calls are
    left out.  [createTask] calls [title.trim()] and
    [findTaskByIdentifier] calls [identifier.toLowerCase()], which throw
    on an absent property. *)
Definition processToolCall (toolName : string) (input : Input) (state : TaskState)
  : Eff ToolResult :=
  if bool_decide (toolName = "add_task") then
    let* title := defined "trim" (Input.title input) in
    let* task :=
      createTask title
                 (default medium (Input.priority input))
                 (if Js.truthy (Input.category input)
                  then default "" (Input.category input) else "") in
    let newState := addTask state task in
    ret (ToolResult.mk newState (Some ("Added " +:+ Js.quoted (Task.title task))))
  else if bool_decide (toolName = "complete_task") then
    let* identifier := defined "toLowerCase" (Input.taskIdentifier input) in
    match findTaskByIdentifier (TaskState.tasks state) identifier with
    | None =>
        ret (ToolResult.mk (withMessage state (notFoundMessage identifier)) None)
    | Some task =>
        if Task.completed task then
          ret (ToolResult.mk
                 (withMessage state (Js.quoted (Task.title task) +:+ " is already complete"))
                 None)
        else
          let* newState := completeTask state (Task.id task) in
          ret (ToolResult.mk newState
                             (Some ("Completed " +:+ Js.quoted (Task.title task))))
    end
  else if bool_decide (toolName = "uncomplete_task") then
    let* identifier := defined "toLowerCase" (Input.taskIdentifier input) in
    match findTaskByIdentifier (TaskState.tasks state) identifier with
    | None =>
        ret (ToolResult.mk (withMessage state (notFoundMessage identifier)) None)
    | Some task =>
        if negb (Task.completed task) then
          ret (ToolResult.mk
                 (withMessage state (Js.quoted (Task.title task) +:+ " is already active"))
                 None)
        else
          ret (ToolResult.mk (uncompleteTask state (Task.id task))
                             (Some ("Marked " +:+ Js.quoted (Task.title task)
                                    +:+ " as active")))
    end
  else if bool_decide (toolName = "delete_task") then
    let* identifier := defined "toLowerCase" (Input.taskIdentifier input) in
    match findTaskByIdentifier (TaskState.tasks state) identifier with
    | None =>
        ret (ToolResult.mk (withMessage state (notFoundMessage identifier)) None)
    | Some task =>
        ret (ToolResult.mk (deleteTask state (Task.id task))
                           (Some ("Deleted " +:+ Js.quoted (Task.title task))))
    end
  else if bool_decide (toolName = "filter_tasks") then
    let filter := createFilter (Input.filterType input) (Input.filterValue input) in
    ret (ToolResult.mk
           (TaskState.mk (TaskState.tasks state) filter (TaskState.agentMessage state))
           (if Js.truthy filter
            then Some ("Filtering by " +:+ default "undefined" (Input.filterType input))
            else Some "Showing all tasks"))
  else
    ret (ToolResult.mk state None).

(** ** The response loop *)

(** A content block of the reasoning service's reply. *)
Inductive ContentBlock :=
| TextBlock (text : string)
| ToolUseBlock (name : string) (input : Input)
| OtherBlock.

(** The three variables of the loop: [updatedState], [actionsTaken] and
    [agentTextResponse]. *)
Module Loop.
Record t := mk {
  updatedState : TaskState;
  actionsTaken : list string;
  agentTextResponse : string
}.
End Loop.
Abbreviation Loop := Loop.t.

(** [updatedState = result.state; if (result.action) actionsTaken.push(result.action)] *)
Definition recordResult (acc : Loop) (result : ToolResult) : Loop :=
  Loop.mk (ToolResult.state result)
          (if Js.truthy (ToolResult.action result)
           then Loop.actionsTaken acc ++ [default "" (ToolResult.action result)]
           else Loop.actionsTaken acc)
          (Loop.agentTextResponse acc).

(** One iteration of [for (const block of response.content)]. *)
Definition processBlock (acc : Loop) (block : ContentBlock) : Eff Loop :=
  match block with
  | TextBlock text =>
      ret (Loop.mk (Loop.updatedState acc) (Loop.actionsTaken acc) text)
  | ToolUseBlock name input =>
      let* result := processToolCall name input (Loop.updatedState acc) in
      ret (recordResult acc result)
  | OtherBlock => ret acc
  end.

Fixpoint processBlocks (acc : Loop) (blocks : list ContentBlock) : Eff Loop :=
  match blocks with
  | [] => ret acc
  | block :: rest =>
      let* acc' := processBlock acc block in
      processBlocks acc' rest
  end.

(** [actionsTaken.join('. ') + '.'] *)
Definition joinedSummary (actionsTaken : list string) : string :=
  Js.join ". " actionsTaken +:+ ".".

(** The part of both API handlers after the loop: the text of the reply,
    else the joined summary, else ['Done!'], becomes [agentMessage]. *)
Definition finish (acc : Loop) : TaskState :=
  let agentTextResponse :=
    if bool_decide (Loop.agentTextResponse acc = "")
       && bool_decide (0 < length (Loop.actionsTaken acc))%nat
    then joinedSummary (Loop.actionsTaken acc)
    else Loop.agentTextResponse acc in
  withMessage (Loop.updatedState acc)
              (if bool_decide (agentTextResponse = "") then "Done!" else agentTextResponse).

(** [callAnthropicAPI] from the reply [content] of [client.messages.create]
    on. *)
Definition callAnthropicAPI (content : list ContentBlock) (currentState : TaskState)
  : Eff TaskState :=
  let* acc := processBlocks (Loop.mk currentState [] "") content in
  ret (finish acc).

(** A tool call of an OpenAI reply; [arguments] is taken after
    [JSON.parse]. *)
Inductive ToolCall :=
| FunctionCall (name : string) (arguments : Input)
| CustomCall.

Definition toolCallBlock (c : ToolCall) : ContentBlock :=
  match c with
  | FunctionCall name arguments => ToolUseBlock name arguments
  | CustomCall => OtherBlock
  end.

(** [callOpenAIAPI] from the reply [choice.message] on: the text is read
    first, then the tool calls run through the same executor. *)
Definition callOpenAIAPI (content : option string) (tool_calls : option (list ToolCall))
    (currentState : TaskState) : Eff TaskState :=
  let text := if Js.truthy content then default "" content else "" in
  let* acc :=
    processBlocks (Loop.mk currentState [] text)
                  (toolCallBlock <$> default [] tool_calls) in
  ret (finish acc).

(** ** Vocabulary of the properties *)

(** [sub] occurs in [s]. *)
Definition substring_of (sub s : string) : Prop :=
  exists pre post, s = pre +:+ sub +:+ post.

(** The decimal numeral of a natural number, as [String(n)] prints it. *)
Definition numeral (n : nat) : string :=
  DecimalString.NilEmpty.string_of_uint (Nat.to_uint n).

(** Every character of [s] is white space. *)
Fixpoint blank (s : string) : bool :=
  match s with
  | EmptyString => true
  | String c r => Js.is_whitespace c && blank r
  end.

(** Every character of [s] is a decimal digit. *)
Fixpoint all_digits (s : string) : bool :=
  match s with
  | EmptyString => true
  | String c r => Js.is_digit c && all_digits r
  end.

(** [s] does not begin with a decimal digit. *)
Definition no_leading_digit (s : string) : bool :=
  match s with
  | EmptyString => true
  | String c _ => negb (Js.is_digit c)
  end.

(** The normal form [findTaskByIdentifier] works on. *)
Definition normalize (identifier : string) : string :=
  Js.trim (Js.toLowerCase identifier).

(** The keywords of [findTaskByIdentifier]. *)
Definition keywords : list string := ["last"; "last task"; "first"; "first task"].

(** The test of the title step: the lower-cased title contains the
    normal form of the identifier. *)
Definition title_matches (identifier : string) (task : Task) : Prop :=
  substring_of (normalize identifier) (Js.toLowerCase (Task.title task)).

(** The keys [filterTasks] recognises, after lower-casing. *)
Definition filter_keys : list string := ["priority"; "completed"; "active"; "category"].

(** The character [c] occurs in [s]. *)
Fixpoint has_char (c : ascii) (s : string) : bool :=
  match s with
  | EmptyString => false
  | String a r => bool_decide (a = c) || has_char c r
  end.

(** The number of occurrences of a task in a list. *)
Definition occurrences (t : Task) (l : list Task) : nat :=
  length (base.filter (fun x => x = t) l).

(** The invariant of an item: [completedAt] is present if and only if
    [completed] is true. *)
Definition stamped (task : Task) : Prop :=
  Task.completed task = true <-> is_Some (Task.completedAt task).

(** An action request: the name of the tool and its input. *)
Definition Request : Type := string * Input.

(** The reply that consists of these tool calls and no text. *)
Definition toolUses (requests : list Request) : list ContentBlock :=
  (fun r : Request => ToolUseBlock r.1 r.2) <$> requests.

(** A request carries the properties its tool requires. *)
Definition well_formed (r : Request) : Prop :=
  (r.1 = "add_task" -> is_Some (Input.title r.2))
  /\ (r.1 ∈ ["complete_task"; "uncomplete_task"; "delete_task"] ->
      is_Some (Input.taskIdentifier r.2)).

(** The tool calls of a reply, in order. *)
Definition requests_of (content : list ContentBlock) : list Request :=
  omap (fun block => match block with
                     | ToolUseBlock name input => Some (name, input)
                     | _ => None
                     end) content.

(** The text the loop ends with: that of the last text block, or the text
    it started with. *)
Definition reply_text (content : list ContentBlock) (text : string) : string :=
  foldl (fun text block => match block with
                           | TextBlock t => t
                           | _ => text
                           end) text content.

(** The summaries a result contributes: its [action] when it is not
    [null]. *)
Definition summaries (result : ToolResult) : list string :=
  option_list (ToolResult.action result).

(** [applyBatch] as the specification words it (section 4.5): the requests
    are applied in the given order, each to the store the previous one
    produced, and the non-null summaries are collected in that order.
    This is the definition the loop of the API handlers is compared
    with. *)
Fixpoint applyBatch_spec (store : TaskState) (requests : list Request)
  : Eff (TaskState * list string) :=
  match requests with
  | [] => ret (store, [])
  | request :: rest =>
      let* result := processToolCall request.1 request.2 store in
      let* final := applyBatch_spec (ToolResult.state result) rest in
      ret (final.1, (summaries result ++ final.2)%list)
  end.

(** The aggregate message of the specification: the summaries joined with
    a period and a space and closed with a period, or the default
    acknowledgement when there is none. *)
Definition aggregate (sums : list string) : string :=
  match sums with
  | [] => "Done!"
  | _ => Js.join ". " sums +:+ "."
  end.

(** Two worlds of one platform: the same identifier source, clock and
    date formatting, the second no earlier than the first. *)
Definition later (w w' : World) : Prop :=
  uuids w' = uuids w /\ clock w' = clock w /\ toISOString w' = toISOString w
  /\ (uuid_calls w <= uuid_calls w')%nat /\ (clock_reads w <= clock_reads w')%nat.

(** What [completeTask], run from world [w] to world [w'], does to one
    item: an item with the given id is marked complete with a time read
    during the run, any other item is left as it is. *)
Definition completed_by (taskId : string) (w w' : World) (t t' : Task) : Prop :=
  if bool_decide (Task.id t = taskId)
  then exists k, (clock_reads w <= k < clock_reads w')%nat
                 /\ t' = markComplete (toISOString w (clock w k)) t
  else t' = t.

(** ** Sample data *)

Definition sampleWorld : World :=
  mkWorld (fun k => "id-" +:+ numeral k) 0
          (fun k => 1000 * Z.of_nat k) 0
          (fun ms => "T+" +:+ numeral (Z.to_nat ms)).

Definition sampleTask (i title : string) (done : bool) : Task :=
  Task.mk i title medium "" done "T+0" (if done then Some "T+1" else None).

Definition milk : Task := sampleTask "a" "Buy milk" false.
Definition eggs : Task := sampleTask "b" "Boil eggs" true.
Definition groceries : Task := sampleTask "c" "2 groceries" false.

Definition addRequest (title : string) (priority : Priority) : Request :=
  ("add_task", Input.mk (Some title) (Some priority) None None None None).

Definition taskRequest (tool identifier : string) : Request :=
  (tool, Input.mk None None None (Some identifier) None None).

(** The batch of the specification's scenario. *)
Definition milk_dog_batch : list Request :=
  [addRequest "buy milk" medium; addRequest "walk dog" high;
   taskRequest "complete_task" "1"].

Definition sampleState : TaskState := TaskState.mk [milk; eggs; groceries] None None.

(** ** Statistics ([task-utils.ts]) *)

(** [interface TaskStats] *)
Module TaskStats.
Record t := mk {
  total : nat;
  active : nat;
  completed : nat;
  highPriority : nat
}.
End TaskStats.
Abbreviation TaskStats := TaskStats.t.

Definition calculateStats (tasks : list Task) : TaskStats :=
  TaskStats.mk
    (length tasks)
    (length (base.filter (fun t => Task.completed t = false) tasks))
    (length (base.filter (fun t => Task.completed t = true) tasks))
    (length (base.filter
               (fun t => priority_string (Task.priority t) = "high"
                         /\ Task.completed t = false) tasks)).

(** ** Display helpers, the components and the API route *)

(** [s.charAt(0)] and [s.slice(1)] *)
Definition charAt0 (s : string) : string :=
  match s with
  | EmptyString => EmptyString
  | String c _ => String c EmptyString
  end.

Definition slice1 (s : string) : string :=
  match s with
  | EmptyString => EmptyString
  | String _ r => r
  end.

(** [String(n)] for an integer. *)
Definition number_string (n : Z) : string :=
  if n <? 0 then "-" +:+ numeral (Z.to_nat (- n)) else numeral (Z.to_nat n).

(** [InputArea.handleSubmit]: the message handed to [onSubmit], if any,
    and the value of the text field afterwards. *)
Definition handleSubmit (value : string) (isLoading : bool) : option string * string :=
  let trimmed := Js.trim value in
  if negb (Js.truthy (Some trimmed)) || isLoading then (None, value)
  else (Some trimmed, "").

(** [type APIProvider = 'anthropic' | 'openai'] *)
Inductive APIProvider := anthropic | openai.

(** The two module-level clients of the API route; a client is known by
    the key it was created with. *)
Module Clients.
Record t := mk {
  anthropicClient : option string;
  openaiClient : option string
}.
End Clients.
Abbreviation Clients := Clients.t.

(** [key && key.startsWith(prefix) && key.length > 20] *)
Definition validKey (prefix : string) (key : option string) : bool :=
  Js.truthy key && Js.startsWith (default "" key) prefix
  && bool_decide (20 < String.length (default "" key))%nat.

(** [getAPIProvider()], from the two environment variables and the
    clients created so far; [inl] is the message of the [Error] it
    throws. *)
Definition getAPIProvider (ANTHROPIC_API_KEY OPENAI_API_KEY : option string)
    (clients : Clients) : string + (APIProvider * string * Clients) :=
  let anthropicKey := Js.trim <$> ANTHROPIC_API_KEY in
  let openaiKey := Js.trim <$> OPENAI_API_KEY in
  let isValidAnthropicKey := validKey "sk-ant" anthropicKey in
  let isValidOpenAIKey := validKey "sk-" openaiKey in
  if isValidAnthropicKey then
    let client := match Clients.anthropicClient clients with
                  | Some c => c
                  | None => default "" anthropicKey
                  end in
    inr (anthropic, client, Clients.mk (Some client) (Clients.openaiClient clients))
  else if isValidOpenAIKey then
    let client := match Clients.openaiClient clients with
                  | Some c => c
                  | None => default "" openaiKey
                  end in
    inr (openai, client, Clients.mk (Clients.anthropicClient clients) (Some client))
  else
    let errorMsg := "No valid API key configured. " in
    let errorMsg :=
      if Js.truthy anthropicKey && negb isValidAnthropicKey
      then errorMsg +:+ "Anthropic key should start with " +:+ Js.quoted "sk-ant" +:+ ". "
      else errorMsg in
    let errorMsg :=
      if Js.truthy openaiKey && negb isValidOpenAIKey
      then errorMsg +:+ "OpenAI key should start with " +:+ Js.quoted "sk-" +:+ ". "
      else errorMsg in
    inl (errorMsg +:+ "Please update your .env.local file.").

Section Platform.

(** Platform functions and a character that are outside the embedding of
    strings: [String.prototype.toUpperCase] (not closed on code units below
    256), the time value of [new Date(isoString)] ([None] for an invalid
    date), [Date.prototype.toLocaleDateString] on that time value, and the
    check mark U+2713. *)
Variable toUpperCase : string -> string.
Variable dateValue : string -> option Z.
Variable toLocaleDateString : option Z -> string.
Variable checkMark : string.

(** [`${filterValue?.charAt(0).toUpperCase()}${filterValue?.slice(1)}`];
    an [undefined] part prints as [undefined]. *)
Definition capitalized (filterValue : option string) : string :=
  match filterValue with
  | Some v => toUpperCase (charAt0 v) +:+ slice1 v
  | None => "undefined" +:+ "undefined"
  end.

Definition getFilterDescription (filter : option string) : string :=
  if negb (Js.truthy filter) then "All Tasks"
  else
    match Js.split ":" (default "" filter) with
    | [] => "All Tasks"
    | filterType :: rest =>
        let filterValue := head rest in
        if bool_decide (filterType = "priority") then
          capitalized filterValue +:+ " Priority"
        else if bool_decide (filterType = "completed") then
          (if bool_decide (filterValue = Some "true")
           then "Completed Tasks" else "Active Tasks")
        else if bool_decide (filterType = "category") then
          "Category: " +:+ capitalized filterValue
        else "All Tasks"
    end.

(** [formatRelativeTime(isoString)].  The differences are integers of [Z];
    rounding to a double is monotone and exact below 2^53, so the
    comparisons with the thresholds and the small numbers that are printed
    are the same. *)
Definition formatRelativeTime (isoString : string) : Eff string :=
  let date := dateValue isoString in
  let* now := newDate in
  match date with
  | None => ret (toLocaleDateString date)
  | Some d =>
      let diffMs := now - d in
      let diffMins := diffMs / 60000 in
      let diffHours := diffMs / 3600000 in
      let diffDays := diffMs / 86400000 in
      if diffMins <? 1 then ret "just now"
      else if diffMins <? 60 then ret (number_string diffMins +:+ "m ago")
      else if diffHours <? 24 then ret (number_string diffHours +:+ "h ago")
      else if diffDays =? 1 then ret "yesterday"
      else if diffDays <? 7 then ret (number_string diffDays +:+ "d ago")
      else ret (toLocaleDateString date)
  end.

(** The state updaters of [TaskAgent]: the functions passed to
    [setState]. *)
Definition handleComplete (taskId : string) (prev : TaskState) : Eff TaskState :=
  match List.find (fun t => bool_decide (Task.id t = taskId)) (TaskState.tasks prev) with
  | None => ret prev
  | Some task =>
      let* newState :=
        if Task.completed task then ret (uncompleteTask prev taskId)
        else completeTask prev taskId in
      ret (withMessage newState
             (if Task.completed task
              then "Marked " +:+ Js.quoted (Task.title task) +:+ " as active"
              else "Completed " +:+ Js.quoted (Task.title task) +:+ " " +:+ checkMark))
  end.

Definition handleDelete (taskId : string) (prev : TaskState) : TaskState :=
  match List.find (fun t => bool_decide (Task.id t = taskId)) (TaskState.tasks prev) with
  | None => prev
  | Some task =>
      withMessage (deleteTask prev taskId) ("Deleted " +:+ Js.quoted (Task.title task))
  end.

Definition handleFilterChange (filter : option string) (prev : TaskState) : TaskState :=
  TaskState.mk (TaskState.tasks prev) filter
    (Some (if Js.truthy filter
           then "Filtering: " +:+ getFilterDescription filter
           else "Showing all tasks")).

(** The list [TaskAgent] hands to [TaskList], and the number [TaskItem]
    prints beside the item at [index] of that list. *)
Definition filteredTasks (state : TaskState) : list Task :=
  filterTasks (TaskState.tasks state) (TaskState.filter state).

Definition displayedNumber (index : nat) : string := number_string (Z.of_nat index + 1).

End Platform.

(** ** Vocabulary of the further properties *)

(** The fields of an item that no action changes. *)
Definition identity (t : Task) : string * string * Priority * string * string :=
  (Task.id t, Task.title t, Task.priority t, Task.category t, Task.createdAt t).

(** The first and the last character of a string. *)
Definition first_char (s : string) : option ascii :=
  match s with
  | EmptyString => None
  | String c _ => Some c
  end.

Fixpoint last_char (s : string) : option ascii :=
  match s with
  | EmptyString => None
  | String c EmptyString => Some c
  | String _ r => last_char r
  end.

(** No white space at either end. *)
Definition trimmed (s : string) : Prop :=
  (forall c, first_char s = Some c -> Js.is_whitespace c = false)
  /\ (forall c, last_char s = Some c -> Js.is_whitespace c = false).

(** The ids of a list of items. *)
Definition ids (l : list Task) : list string := Task.id <$> l.

(** The identifier source is good for a list of items: the ids of the list
    are distinct, and from now on the source returns no id of the list and
    no id twice. *)
Definition fresh_source (w : World) (l : list Task) : Prop :=
  NoDup (ids l)
  /\ (forall k, (uuid_calls w <= k)%nat -> uuids w k ∉ ids l)
  /\ (forall j k, (uuid_calls w <= j)%nat -> (uuid_calls w <= k)%nat ->
                  uuids w j = uuids w k -> j = k).

(** A filter shows an item: the item passes when it is filtered alone. *)
Definition shows (filter : option string) (task : Task) : Prop :=
  filterTasks [task] filter = [task].

#[global] Instance shows_dec filter task : Decision (shows filter task).
Proof. unfold shows. apply _. Defined.

(** ** Tactics *)

(** Case analysis on a character, all 256 of them. *)
Ltac each_char c :=
  destruct c as [[] [] [] [] [] [] [] []]; try discriminate; try reflexivity.

(** Closes [normalize s ∉ keywords] for a literal [s]. *)
Ltac not_keyword :=
  match goal with
  | |- normalize ?s ∉ keywords =>
      let v := eval vm_compute in (normalize s) in
      change (normalize s) with v;
      unfold keywords; rewrite !elem_of_cons, elem_of_nil;
      let H := fresh in
      intros H; repeat (destruct H as [H|H]; [discriminate H|]); exact H
  end.

(** Closes [well_formed] for a request given by literals. *)
Ltac well_formed_literal :=
  split; cbn [fst snd];
  [ try (intros _; eexists; reflexivity); try discriminate
  | rewrite !elem_of_cons, elem_of_nil;
    try (intros _; eexists; reflexivity);
    try (intros H; repeat (destruct H as [H|H]; [discriminate H|]); destruct H) ].

(** ** Strings: properties *)

Example toLowerCase_ex : Js.toLowerCase "Last TASK" = "last task".
Proof. reflexivity. Qed.
Example trim_ex : Js.trim "  buy  milk  " = "buy  milk".
Proof. reflexivity. Qed.
Example parseInt_ex :
  Js.parseInt "2" = Some 2 /\ Js.parseInt "1st task" = Some 1 /\
  Js.parseInt "-3" = Some (-3) /\ Js.parseInt "+2x" = Some 2 /\
  Js.parseInt "task 2" = None /\ Js.parseInt "" = None /\
  Js.parseInt "0x10" = Some 0.
Proof. repeat split; reflexivity. Qed.
Example split_ex :
  Js.split ":" "priority:high" = ["priority"; "high"] /\
  Js.split ":" "active" = ["active"] /\
  Js.split ":" "a:b:c" = ["a"; "b"; "c"] /\
  Js.split ":" ":" = [""; ""].
Proof. repeat split; reflexivity. Qed.
Example includes_ex :
  Js.includes "buy groceries" "groc" = true /\
  Js.includes "buy groceries" "" = true /\
  Js.includes "buy" "buys" = false.
Proof. repeat split; reflexivity. Qed.

Lemma startsWith_spec s p :
  Js.startsWith s p = true <-> exists post, s = p +:+ post.
Proof.
  revert s. induction p as [|a p IH]; intros s; simpl.
  - split; [intros _; by exists s | done].
  - destruct s as [|b s]; simpl.
    + split; [done | intros [post H]; discriminate].
    + rewrite andb_true_iff, bool_decide_eq_true, IH. split.
      * intros [-> [post ->]]. by exists post.
      * intros [post H]. injection H as -> ->. eauto.
Qed.

Lemma includes_spec s sub :
  Js.includes s sub = true <-> substring_of sub s.
Proof.
  unfold substring_of. split.
  - induction s as [|c s IH]; simpl; rewrite orb_true_iff.
    + intros [H|H]; [|done].
      apply startsWith_spec in H as [post ->]. by exists "", post.
    + intros [H|H].
      * apply startsWith_spec in H as [post ->]. by exists "", post.
      * destruct (IH H) as (pre & post & ->). by exists (String c pre), post.
  - intros (pre & post & ->).
    induction pre as [|c pre IH]; simpl.
    + destruct (sub +:+ post) eqn:E; simpl; rewrite orb_true_iff; left;
        apply startsWith_spec; exists post; by rewrite E.
    + rewrite orb_true_iff. right. exact IH.
Qed.

Lemma includes_false s sub :
  Js.includes s sub = false <-> ~ substring_of sub s.
Proof.
  rewrite <- includes_spec. destruct (Js.includes s sub); split; done.
Qed.

Lemma digit_not_whitespace c : Js.is_digit c = true -> Js.is_whitespace c = false.
Proof. each_char c. Qed.

Lemma digit_not_upper c : Js.is_digit c = true -> Js.is_upper c = false.
Proof. each_char c. Qed.

Lemma whitespace_not_upper c : Js.is_whitespace c = true -> Js.is_upper c = false.
Proof. each_char c. Qed.

Lemma is_digit_lower_char c : Js.is_digit (Js.lower_char c) = Js.is_digit c.
Proof. each_char c. Qed.

Lemma append_empty_r s : s +:+ EmptyString = s.
Proof.
  induction s as [|c s IH]; [done|].
  change (String c s +:+ EmptyString) with (String c (s +:+ EmptyString)).
  by rewrite IH.
Qed.

Lemma toLowerCase_app s t :
  Js.toLowerCase (s +:+ t) = Js.toLowerCase s +:+ Js.toLowerCase t.
Proof. induction s as [|c s IH]; simpl; [done | by rewrite IH]. Qed.

Lemma toLowerCase_digits s : all_digits s = true -> Js.toLowerCase s = s.
Proof.
  induction s as [|c s IH]; simpl; [done|].
  rewrite andb_true_iff. intros [Hc Hs]. unfold Js.lower_char.
  by rewrite (digit_not_upper c Hc), (IH Hs).
Qed.

Lemma toLowerCase_blank s : blank s = true -> Js.toLowerCase s = s.
Proof.
  induction s as [|c s IH]; simpl; [done|].
  rewrite andb_true_iff. intros [Hc Hs]. unfold Js.lower_char.
  by rewrite (whitespace_not_upper c Hc), (IH Hs).
Qed.

Lemma no_leading_digit_toLowerCase s :
  no_leading_digit (Js.toLowerCase s) = no_leading_digit s.
Proof. destruct s as [|c s]; simpl; [done | by rewrite is_digit_lower_char]. Qed.

Lemma trimStart_blank_app lead s :
  blank lead = true -> Js.trimStart (lead +:+ s) = Js.trimStart s.
Proof.
  induction lead as [|c lead IH]; simpl; [done|].
  rewrite andb_true_iff. intros [-> Hs]. by apply IH.
Qed.

Lemma trimEnd_head c r :
  Js.trimEnd (String c r) = EmptyString \/ exists r', Js.trimEnd (String c r) = String c r'.
Proof.
  simpl. destruct (Js.trimEnd r); [destruct (Js.is_whitespace c)|]; eauto.
Qed.

Lemma no_leading_digit_trimEnd s :
  no_leading_digit s = true -> no_leading_digit (Js.trimEnd s) = true.
Proof.
  destruct s as [|c r]; [done|]. intros H.
  destruct (trimEnd_head c r) as [->|[r' ->]]; done.
Qed.

Lemma trimEnd_digits_app ds r :
  all_digits ds = true -> Js.trimEnd (ds +:+ r) = ds +:+ Js.trimEnd r.
Proof.
  induction ds as [|c ds IH]; simpl; [done|].
  rewrite andb_true_iff. intros [Hc Hs]. rewrite (IH Hs).
  change (String c ds +:+ Js.trimEnd r) with (String c (ds +:+ Js.trimEnd r)).
  destruct (ds +:+ Js.trimEnd r); [|done].
  by rewrite (digit_not_whitespace c Hc).
Qed.

Lemma trimStart_spec s :
  exists lead, blank lead = true /\ s = lead +:+ Js.trimStart s.
Proof.
  induction s as [|c s (lead & Hlead & IH)]; [by exists ""|].
  cbn [Js.trimStart]. destruct (Js.is_whitespace c) eqn:Hc; [|by exists ""].
  exists (String c lead). cbn [blank]. rewrite Hc, Hlead. split; [done|].
  change (String c lead +:+ Js.trimStart s) with (String c (lead +:+ Js.trimStart s)).
  by rewrite <- IH.
Qed.

Lemma trimEnd_spec s :
  exists trail, blank trail = true /\ s = Js.trimEnd s +:+ trail.
Proof.
  induction s as [|c s (trail & Htrail & IH)]; [by exists ""|].
  cbn [Js.trimEnd]. destruct (Js.trimEnd s) as [|a r] eqn:E.
  - change (EmptyString +:+ trail) with trail in IH. subst trail.
    destruct (Js.is_whitespace c) eqn:Hc.
    + exists (String c s). cbn [blank]. by rewrite Hc, Htrail.
    + by exists s.
  - exists trail. split; [done|]. rewrite IH at 1. done.
Qed.

(** [trim] removes white space at both ends and nothing else. *)
Lemma trim_spec s :
  exists lead trail,
    blank lead = true /\ blank trail = true /\ s = lead +:+ Js.trim s +:+ trail.
Proof.
  destruct (trimStart_spec s) as (lead & Hlead & Hs).
  destruct (trimEnd_spec (Js.trimStart s)) as (trail & Htrail & Ht).
  exists lead, trail. split; [done|]. split; [done|].
  unfold Js.trim. by rewrite <- Ht.
Qed.

Lemma trimEnd_empty s : Js.trimEnd s = EmptyString <-> blank s = true.
Proof.
  induction s as [|c s IH]; [done|]. cbn [Js.trimEnd blank].
  destruct (Js.trimEnd s) as [|a r].
  - rewrite (proj1 IH eq_refl), andb_true_r.
    by destruct (Js.is_whitespace c).
  - destruct (blank s); [by destruct IH as [_ IH]; discriminate IH|].
    by rewrite andb_false_r.
Qed.

Lemma blank_trimStart s : blank (Js.trimStart s) = blank s.
Proof.
  induction s as [|c s IH]; [done|]. cbn [Js.trimStart blank].
  destruct (Js.is_whitespace c) eqn:Hc; [done|]. cbn [blank]. by rewrite Hc.
Qed.

(** A string is empty after trimming exactly when it is all white space. *)
Lemma trim_empty s : Js.trim s = EmptyString <-> blank s = true.
Proof. unfold Js.trim. by rewrite trimEnd_empty, blank_trimStart. Qed.

Lemma parse_digits_stop acc s :
  no_leading_digit s = true -> Js.parse_digits acc s = acc.
Proof.
  destruct s as [|c s]; simpl; [done|]. by destruct (Js.is_digit c).
Qed.

Lemma parse_digits_app acc ds rest :
  all_digits ds = true -> no_leading_digit rest = true ->
  Js.parse_digits acc (ds +:+ rest) = Js.parse_digits acc ds.
Proof.
  revert acc. induction ds as [|c ds IH]; intros acc; simpl.
  - intros _ H. by apply parse_digits_stop.
  - rewrite andb_true_iff. intros [-> Hs] H. by apply IH.
Qed.

(** A string that begins with a digit is read as an unsigned number. *)
Lemma parseInt_digit c r :
  Js.is_digit c = true ->
  Js.parseInt (String c r) = Some (Js.parse_digits 0 (String c r)).
Proof.
  rewrite <- (Z.mul_1_l (Js.parse_digits 0 (String c r))).
  each_char c.
Qed.

Lemma parseInt_digits_app ds rest :
  ds <> EmptyString -> all_digits ds = true -> no_leading_digit rest = true ->
  Js.parseInt (ds +:+ rest) = Js.parseInt ds.
Proof.
  destruct ds as [|c ds]; [done|]. intros _ Hds Hrest.
  pose proof Hds as Hc. simpl in Hc. apply andb_true_iff in Hc as [Hc _].
  change (String c ds +:+ rest) with (String c (ds +:+ rest)).
  rewrite !parseInt_digit by done.
  change (String c (ds +:+ rest)) with (String c ds +:+ rest).
  by rewrite parse_digits_app.
Qed.

(** Decimal numerals are read back by [parseInt]. *)
Lemma all_digits_string_of_uint d :
  all_digits (NilEmpty.string_of_uint d) = true.
Proof. induction d; simpl; done. Qed.

Lemma parse_digits_string_of_uint d acc :
  Js.parse_digits (Z.of_nat acc) (NilEmpty.string_of_uint d)
  = Z.of_nat (Nat.of_uint_acc d acc).
Proof.
  revert acc.
  induction d as [|d IH|d IH|d IH|d IH|d IH|d IH|d IH|d IH|d IH|d IH];
    intros acc; [done|..];
    cbn [NilEmpty.string_of_uint Js.parse_digits Nat.of_uint_acc];
    (match goal with
     | |- (if ?b then _ else _) = _ => change b with true; cbv iota
     end);
    rewrite <- IH; f_equal; rewrite Nat.tail_mul_spec;
    unfold Js.digit_value, Js.code; cbn [N_of_ascii N_of_digits]; lia.
Qed.

Lemma numeral_nonempty n : numeral n <> EmptyString.
Proof.
  unfold numeral. intros H.
  assert (Hn : Nat.to_uint n = Decimal.Nil) by (by destruct (Nat.to_uint n)).
  pose proof (DecimalNat.Unsigned.of_to n) as Hof.
  rewrite Hn in Hof. cbn in Hof. subst n. discriminate Hn.
Qed.

Lemma all_digits_numeral n : all_digits (numeral n) = true.
Proof. apply all_digits_string_of_uint. Qed.

Lemma parseInt_numeral n : Js.parseInt (numeral n) = Some (Z.of_nat n).
Proof.
  pose proof (numeral_nonempty n) as Hne.
  pose proof (all_digits_numeral n) as Hd.
  destruct (numeral n) as [|c r] eqn:E; [done|].
  rewrite parseInt_digit by (simpl in Hd; by apply andb_true_iff in Hd as [? _]).
  rewrite <- E. unfold numeral. f_equal.
  change 0 with (Z.of_nat 0).
  rewrite (parse_digits_string_of_uint (Nat.to_uint n) 0).
  f_equal. apply DecimalNat.Unsigned.of_to.
Qed.

(** The normal form of white space, digits and further text. *)
Lemma normalize_digits lead ds rest :
  blank lead = true -> ds <> EmptyString -> all_digits ds = true ->
  normalize (lead +:+ ds +:+ rest) = ds +:+ Js.trimEnd (Js.toLowerCase rest).
Proof.
  intros Hlead Hne Hds. unfold normalize, Js.trim.
  rewrite !toLowerCase_app, (toLowerCase_blank lead Hlead), (toLowerCase_digits ds Hds).
  rewrite (trimStart_blank_app lead _ Hlead).
  destruct ds as [|c ds]; [done|].
  pose proof Hds as Hc. simpl in Hc. apply andb_true_iff in Hc as [Hc _].
  change (String c ds +:+ Js.toLowerCase rest)
    with (String c (ds +:+ Js.toLowerCase rest)) at 1.
  cbn [Js.trimStart]. rewrite (digit_not_whitespace c Hc).
  change (String c (ds +:+ Js.toLowerCase rest))
    with (String c ds +:+ Js.toLowerCase rest).
  by apply trimEnd_digits_app.
Qed.

Lemma parseInt_normalize_digits lead ds rest :
  blank lead = true -> ds <> EmptyString -> all_digits ds = true ->
  no_leading_digit rest = true ->
  Js.parseInt (normalize (lead +:+ ds +:+ rest)) = Js.parseInt ds.
Proof.
  intros Hlead Hne Hds Hrest. rewrite normalize_digits by done.
  apply parseInt_digits_app; [done..|].
  apply no_leading_digit_trimEnd. by rewrite no_leading_digit_toLowerCase.
Qed.

(** ** Task lookup: properties *)

Lemma findTaskByIdentifier_index tasks identifier n :
  Js.parseInt (normalize identifier) = Some n ->
  1 <= n <= Z.of_nat (length tasks) ->
  findTaskByIdentifier tasks identifier = tasks !! Z.to_nat (n - 1)
  /\ is_Some (tasks !! Z.to_nat (n - 1)).
Proof.
  intros Hparse [Hlo Hhi]. unfold findTaskByIdentifier, normalize in *.
  rewrite Hparse. unfold positional.
  rewrite (proj2 (Z.leb_le 1 n) Hlo), (proj2 (Z.leb_le _ _) Hhi). simpl.
  split; [done|]. apply lookup_lt_is_Some. lia.
Qed.

Lemma findTaskByIdentifier_numeral tasks lead k text :
  blank lead = true -> no_leading_digit text = true ->
  (1 <= k <= length tasks)%nat ->
  findTaskByIdentifier tasks (lead +:+ numeral k +:+ text) = tasks !! (k - 1)%nat.
Proof.
  intros Hlead Htext Hk.
  destruct (findTaskByIdentifier_index tasks (lead +:+ numeral k +:+ text) (Z.of_nat k))
    as [-> _]; [|lia|f_equal; lia].
  rewrite parseInt_normalize_digits, parseInt_numeral;
    auto using numeral_nonempty, all_digits_numeral.
Qed.

(** When the positional step and the keywords do not apply, the result is
    that of [Array.prototype.find] on the title test. *)
Lemma findTaskByIdentifier_fallthrough tasks identifier :
  positional (Js.parseInt (normalize identifier)) (length tasks) = None ->
  normalize identifier ∉ keywords ->
  findTaskByIdentifier tasks identifier
  = List.find
      (fun task => Js.includes (Js.toLowerCase (Task.title task)) (normalize identifier))
      tasks.
Proof.
  intros Hpos Hkw. unfold findTaskByIdentifier, normalize in *. rewrite Hpos.
  unfold keywords in Hkw. rewrite !elem_of_cons, elem_of_nil in Hkw.
  repeat case_bool_decide; simpl; try done; exfalso; apply Hkw; auto.
Qed.

Lemma positional_None index len :
  positional index len = None <->
  forall n, index = Some n -> ~ (1 <= n <= Z.of_nat len).
Proof.
  unfold positional. destruct index as [n|]; [|split; [intros _ ? [=] | done]].
  destruct (1 <=? n) eqn:E1; destruct (n <=? Z.of_nat len) eqn:E2; simpl;
    (split; [intros H m [= <-]; try done; lia | intros H; try done]).
  exfalso. apply (H n eq_refl). lia.
Qed.

(** [Array.prototype.find] returns the first element that passes the
    test, and nothing when no element passes. *)
Section find.
Context {A : Type} (p : A -> bool).

Lemma find_first (l : list A) (x : A) :
  List.find p l = Some x <->
  exists i, l !! i = Some x /\ p x = true /\
            forall j y, (j < i)%nat -> l !! j = Some y -> p y = false.
Proof.
  induction l as [|a l IH]; simpl.
  - split; [done | intros (i & H & _); by rewrite lookup_nil in H].
  - destruct (p a) eqn:Ea.
    + split.
      * intros [= <-]. exists 0%nat. repeat split; [done|]. intros; lia.
      * intros ([|i] & Hi & Hx & Hfirst).
        -- simpl in Hi. congruence.
        -- specialize (Hfirst 0%nat a). simpl in Hfirst.
           rewrite Hfirst in Ea by (done || lia). done.
    + rewrite IH. split.
      * intros (i & Hi & Hx & Hfirst). exists (S i). repeat split; [done..|].
        intros [|j] y Hj Hy; simpl in Hy; [congruence|].
        apply (Hfirst j); [lia | done].
      * intros ([|i] & Hi & Hx & Hfirst); simpl in Hi.
        -- congruence.
        -- exists i. repeat split; [done..|].
           intros j y Hj Hy. apply (Hfirst (S j)); [lia | done].
Qed.

Lemma find_None (l : list A) :
  List.find p l = None <-> forall y, y ∈ l -> p y = false.
Proof.
  induction l as [|a l IH]; simpl.
  - split; [intros _ y Hy; by apply elem_of_nil in Hy | done].
  - destruct (p a) eqn:Ea.
    + split; [done|]. intros H.
      rewrite H in Ea by (apply elem_of_cons; by left). done.
    + rewrite IH. split.
      * intros H y [->|Hy]%elem_of_cons; auto.
      * intros H y Hy. apply H. apply elem_of_cons. by right.
Qed.
End find.

(** C6. Positional resolution: when the normal form of the identifier
    (trimmed, lower-cased) parses as an integer [n] with
    [1 <= n <= len(items)], [findTaskByIdentifier] returns the item at
    position [n - 1], which exists; in particular the decimal numeral of
    every such [n] does.  On a three-item list [[A; B; C]], ["2"] resolves to
    [B], and ["0"] and ["4"] resolve to nothing when no title contains
    them. *)
Theorem findTaskByIdentifier_positional
    (tasks : list Task) (identifier : string) (n : Z) (A B C : Task) :
  Js.parseInt (normalize identifier) = Some n ->
  1 <= n <= Z.of_nat (length tasks) ->
  (forall t, t ∈ [A; B; C] -> ~ title_matches "0" t /\ ~ title_matches "4" t) ->
  findTaskByIdentifier tasks identifier = tasks !! Z.to_nat (n - 1)
  /\ is_Some (tasks !! Z.to_nat (n - 1))
  /\ (forall k, (1 <= k <= length tasks)%nat ->
        findTaskByIdentifier tasks (numeral k) = tasks !! (k - 1)%nat)
  /\ findTaskByIdentifier [A; B; C] "2" = Some B
  /\ findTaskByIdentifier [A; B; C] "0" = None
  /\ findTaskByIdentifier [A; B; C] "4" = None.
Proof.
  intros Hparse Hn Htitles.
  destruct (findTaskByIdentifier_index tasks identifier n Hparse Hn) as [Hfind Hsome].
  repeat split; try done.
  - intros k Hk.
    pose proof (findTaskByIdentifier_numeral tasks "" k "" eq_refl eq_refl Hk) as H.
    by rewrite append_empty_r in H.
  - rewrite findTaskByIdentifier_fallthrough; [|reflexivity|not_keyword].
    apply find_None. intros t Ht. apply includes_false, (Htitles t Ht).
  - rewrite findTaskByIdentifier_fallthrough; [|reflexivity|not_keyword].
    apply find_None. intros t Ht. apply includes_false, (Htitles t Ht).
Qed.

Lemma findTaskByIdentifier_positional_witness :
  (Js.parseInt (normalize " 3 ") = Some 3
   /\ 1 <= 3 <= Z.of_nat (length [milk; eggs; groceries]))
  /\ findTaskByIdentifier [milk; eggs; groceries] " 3 " = Some groceries
  /\ findTaskByIdentifier [milk; eggs; milk] "2" = Some eggs
  /\ findTaskByIdentifier [milk; eggs; milk] "0" = None
  /\ findTaskByIdentifier [milk; eggs; milk] "4" = None.
Proof.
  assert (H3 : 1 <= 3 <= Z.of_nat (length [milk; eggs; groceries]))
    by (simpl; lia).
  assert (Hno : forall t, t ∈ [milk; eggs; milk] ->
                  ~ title_matches "0" t /\ ~ title_matches "4" t).
  { intros t Ht. unfold title_matches. rewrite <- !includes_false.
    rewrite !elem_of_cons, elem_of_nil in Ht.
    destruct Ht as [->|[->|[->|[]]]]; split; reflexivity. }
  destruct (findTaskByIdentifier_positional [milk; eggs; groceries] " 3 " 3
              milk eggs milk eq_refl H3 Hno) as (Ha & _ & _ & Hc & Hd & He).
  split; [split; [reflexivity | exact H3]|].
  split; [exact Ha|]. split; [exact Hc|]. split; [exact Hd | exact He].
Defined.

(** C7. Title matching: when the positional step does not apply and the
    normal form of the identifier is none of the keywords,
    [findTaskByIdentifier] returns the first item, in store order, whose
    lower-cased title contains the normal form as a substring -- whatever
    the other fields of the items are -- and returns nothing exactly when
    no title contains it. *)
Theorem findTaskByIdentifier_title (tasks : list Task) (identifier : string) :
  (forall n, Js.parseInt (normalize identifier) = Some n ->
             ~ (1 <= n <= Z.of_nat (length tasks))) ->
  normalize identifier ∉ keywords ->
  (forall task,
      findTaskByIdentifier tasks identifier = Some task <->
      exists i, tasks !! i = Some task /\ title_matches identifier task /\
                forall j u, (j < i)%nat -> tasks !! j = Some u ->
                            ~ title_matches identifier u)
  /\ (findTaskByIdentifier tasks identifier = None <->
      forall u, u ∈ tasks -> ~ title_matches identifier u).
Proof.
  intros Hpos Hkw. apply positional_None in Hpos.
  rewrite (findTaskByIdentifier_fallthrough tasks identifier Hpos Hkw).
  unfold title_matches. split.
  - intros task. rewrite find_first. split.
    + intros (i & Hi & Hm & Hfirst). exists i. split; [done|].
      split; [by apply includes_spec|].
      intros j u Hj Hu. apply includes_false. by apply (Hfirst j).
    + intros (i & Hi & Hm & Hfirst). exists i. split; [done|].
      split; [by apply includes_spec|].
      intros j u Hj Hu. apply includes_false. by apply (Hfirst j).
  - rewrite find_None. split.
    + intros H u Hu. apply includes_false. by apply H.
    + intros H u Hu. apply includes_false. by apply H.
Qed.

Lemma findTaskByIdentifier_title_witness :
  (normalize " EGG " ∉ keywords)
  /\ findTaskByIdentifier [milk; eggs; sampleTask "d" "Egg salad" false] " EGG "
     = Some eggs
  /\ findTaskByIdentifier [milk; eggs] "bread" = None.
Proof.
  assert (Hkw : normalize " EGG " ∉ keywords) by not_keyword.
  assert (Hkw' : normalize "bread" ∉ keywords) by not_keyword.
  destruct (findTaskByIdentifier_title
              [milk; eggs; sampleTask "d" "Egg salad" false] " EGG ")
    as [Hsome _]; [intros n [=] | exact Hkw |].
  destruct (findTaskByIdentifier_title [milk; eggs] "bread")
    as [_ Hnone]; [intros n [=] | exact Hkw' |].
  split; [exact Hkw|]. split.
  - apply Hsome. exists 1%nat. split; [reflexivity|].
    unfold title_matches. rewrite <- includes_spec. split; [reflexivity|].
    intros j u Hj Hu. destruct j as [|j]; [|lia].
    injection Hu as <-. by apply includes_false.
  - apply Hnone. intros u Hu. unfold title_matches. apply includes_false.
    rewrite !elem_of_cons, elem_of_nil in Hu. destruct Hu as [->|[->|[]]]; reflexivity.
Defined.

(** C9. Leading digits decide: when the normal form of the identifier
    begins with a run of decimal digits [ds] that [parseInt] reads as [n],
    with [1 <= n <= len(items)], the item at position [n - 1] is returned
    whatever text [rest] follows the digits, and title matching is not
    tried; so ["1st task"] names the first item of a non-empty list and
    ["2 groceries"] the second item of a list of at least two. *)
Theorem findTaskByIdentifier_leading_digits
    (tasks : list Task) (identifier ds rest : string) (n : Z)
    (A B : Task) (more : list Task) :
  normalize identifier = ds +:+ rest ->
  ds <> EmptyString -> all_digits ds = true -> no_leading_digit rest = true ->
  Js.parseInt ds = Some n ->
  1 <= n <= Z.of_nat (length tasks) ->
  findTaskByIdentifier tasks identifier = tasks !! Z.to_nat (n - 1)
  /\ is_Some (tasks !! Z.to_nat (n - 1))
  /\ (forall lead k text,
        blank lead = true -> no_leading_digit text = true ->
        (1 <= k <= length tasks)%nat ->
        findTaskByIdentifier tasks (lead +:+ numeral k +:+ text) = tasks !! (k - 1)%nat)
  /\ findTaskByIdentifier (A :: more) "1st task" = Some A
  /\ findTaskByIdentifier (A :: B :: more) "2 groceries" = Some B.
Proof.
  intros Hnorm Hne Hds Hrest Hparse Hn.
  assert (Hp : Js.parseInt (normalize identifier) = Some n).
  { rewrite Hnorm, parseInt_digits_app; done. }
  destruct (findTaskByIdentifier_index tasks identifier n Hp Hn) as [Hfind Hsome].
  split; [done|]. split; [done|]. split.
  { intros lead k text. apply findTaskByIdentifier_numeral. }
  split.
  - destruct (findTaskByIdentifier_index (A :: more) "1st task" 1) as [-> _];
      [reflexivity | simpl; lia | reflexivity].
  - destruct (findTaskByIdentifier_index (A :: B :: more) "2 groceries" 2) as [-> _];
      [reflexivity | simpl; lia | reflexivity].
Qed.

Lemma findTaskByIdentifier_leading_digits_witness :
  normalize "  2 Groceries " = "2" +:+ " groceries"
  /\ findTaskByIdentifier [milk; eggs; groceries] "  2 Groceries " = Some eggs
  /\ findTaskByIdentifier [milk; eggs; groceries] "1st task" = Some milk.
Proof.
  destruct (findTaskByIdentifier_leading_digits
              [milk; eggs; groceries] "  2 Groceries " "2" " groceries" 2
              milk eggs [groceries])
    as (H2 & _ & _ & H1 & _);
    [reflexivity | discriminate | reflexivity | reflexivity | reflexivity
    | simpl; lia |].
  split; [reflexivity|]. split; [exact H2 | exact H1].
Defined.

(** ** Filtering: properties *)

Lemma split_nonempty sep s : Js.split sep s <> [].
Proof.
  destruct s as [|c s]; simpl; [done|].
  case_bool_decide; [done|]. by destruct (Js.split sep s).
Qed.

Lemma split_key_value sep key value :
  has_char sep key = false ->
  Js.split sep (key +:+ String sep value) = key :: Js.split sep value.
Proof.
  induction key as [|c key IH]; simpl.
  - intros _. by rewrite bool_decide_eq_true_2.
  - rewrite orb_false_iff. intros [Hc Hkey]. apply bool_decide_eq_false in Hc.
    change (String c key +:+ String sep value)
      with (String c (key +:+ String sep value)).
    cbn [Js.split]. rewrite bool_decide_eq_false_2 by done. by rewrite (IH Hkey).
Qed.

Lemma sublist_occurrences (t : Task) (l1 l2 : list Task) :
  l1 `sublist_of` l2 -> (occurrences t l1 <= occurrences t l2)%nat.
Proof.
  unfold occurrences. induction 1 as [|x l1 l2 _ IH|x l1 l2 _ IH];
    rewrite ?filter_cons; repeat case_decide; simpl; lia.
Qed.

(** C10. For every filter, [filterTasks] returns a subsequence of its
    input: the items kept are items of the input, unchanged and in their
    original relative order, and none occurs more often than in the
    input. *)
Theorem filterTasks_subsequence (tasks : list Task) (filter : option string) :
  filterTasks tasks filter `sublist_of` tasks
  /\ (forall t, t ∈ filterTasks tasks filter -> t ∈ tasks)
  /\ (forall t, occurrences t (filterTasks tasks filter) <= occurrences t tasks)%nat
  /\ (length (filterTasks tasks filter) <= length tasks)%nat.
Proof.
  assert (Hsub : filterTasks tasks filter `sublist_of` tasks).
  { unfold filterTasks.
    destruct (negb (Js.truthy filter) || bool_decide (filter = Some "all")); [done|].
    destruct (Js.split ":" (default "" filter)) as [|filterType rest]; [done|].
    cbv zeta. repeat case_bool_decide; try done; apply sublist_filter. }
  split; [done|]. split; [|split].
  - intros t Ht. by eapply elem_of_sublist.
  - intros t. by apply sublist_occurrences.
  - by apply sublist_length.
Qed.

(** C8, as the code has it: an absent filter, the literal [all], and a
    [key:value] string whose key, lower-cased, is none of [priority],
    [completed], [active], [category], give back the whole list unchanged;
    the key is compared after lower-casing.  In particular
    [filterTasks(tasks, "bogus:x") = tasks]. *)
Theorem filterTasks_fail_open (tasks : list Task) (filter : option string)
    (key value : string) :
  filter = None \/ filter = Some "all" \/
  (filter = Some (key +:+ ":" +:+ value) /\ has_char ":" key = false
   /\ Js.toLowerCase key ∉ filter_keys) ->
  filterTasks tasks filter = tasks
  /\ filterTasks tasks (Some "bogus:x") = tasks.
Proof.
  intros H. split; [|reflexivity].
  destruct H as [->|[->|(-> & Hcolon & Hkey)]]; [reflexivity..|].
  unfold filterTasks.
  assert (Hsplit : Js.split ":" (key +:+ ":" +:+ value) = key :: Js.split ":" value)
    by (by apply split_key_value).
  assert (Htruthy : Js.truthy (Some (key +:+ ":" +:+ value)) = true)
    by (by destruct key).
  assert (Hall : key +:+ ":" +:+ value <> "all").
  { intros E. rewrite E in Hsplit. injection Hsplit as _ Hnil.
    by apply (split_nonempty ":" value). }
  rewrite Htruthy, bool_decide_eq_false_2 by congruence.
  cbn [negb orb default from_option]. unfold id. rewrite Hsplit. cbv zeta.
  unfold filter_keys in Hkey. rewrite !elem_of_cons, elem_of_nil in Hkey.
  repeat case_bool_decide; try done; exfalso; apply Hkey; auto.
Qed.

Lemma filterTasks_fail_open_witness :
  (Js.toLowerCase "Bogus" ∉ filter_keys)
  /\ filterTasks [milk; eggs] (Some "Bogus:x") = [milk; eggs].
Proof.
  assert (Hkey : Js.toLowerCase "Bogus" ∉ filter_keys).
  { unfold filter_keys. rewrite !elem_of_cons, elem_of_nil.
    intros [H|[H|[H|[H|[]]]]]; discriminate H. }
  destruct (filterTasks_fail_open [milk; eggs] (Some "Bogus:x") "Bogus" "x") as [H _].
  { right. right. split; [reflexivity|]. split; [reflexivity | exact Hkey]. }
  split; [exact Hkey | exact H].
Defined.

(** C8, as the specification words it, fails: the key [PRIORITY] is none
    of the four keys, yet the filter applies. *)
Lemma filterTasks_fail_open_counterexample :
  ~ (forall (tasks : list Task) (key value : string),
       key ∉ filter_keys ->
       filterTasks tasks (Some (key +:+ ":" +:+ value)) = tasks).
Proof.
  intros H. specialize (H [milk] "PRIORITY" "high").
  assert (Hkey : "PRIORITY" ∉ filter_keys).
  { unfold filter_keys. rewrite !elem_of_cons, elem_of_nil.
    intros [E|[E|[E|[E|[]]]]]; discriminate E. }
  specialize (H Hkey). vm_compute in H. discriminate H.
Qed.

(** ** Effects: properties *)

(** The world after one call of [uuidv4()] and one reading of the clock. *)
Lemma createTask_Return title priority category w :
  createTask title priority category w
  = Return (Task.mk (uuids w (uuid_calls w)) (Js.trim title) priority
                    (Js.trim category) false
                    (toISOString w (clock w (clock_reads w))) None)
           (mkWorld (uuids w) (S (uuid_calls w)) (clock w) (S (clock_reads w))
                    (toISOString w)).
Proof. reflexivity. Qed.

(** ** The tool executor: one equation for each tool *)

Lemma processToolCall_add_task input state :
  processToolCall "add_task" input state
  = (let* title := defined "trim" (Input.title input) in
     let* task :=
       createTask title (default medium (Input.priority input))
                  (if Js.truthy (Input.category input)
                   then default "" (Input.category input) else "") in
     ret (ToolResult.mk (addTask state task)
                        (Some ("Added " +:+ Js.quoted (Task.title task))))).
Proof. reflexivity. Qed.

Lemma processToolCall_complete_task input state :
  processToolCall "complete_task" input state
  = (let* identifier := defined "toLowerCase" (Input.taskIdentifier input) in
     match findTaskByIdentifier (TaskState.tasks state) identifier with
     | None =>
         ret (ToolResult.mk (withMessage state (notFoundMessage identifier)) None)
     | Some task =>
         if Task.completed task then
           ret (ToolResult.mk
                  (withMessage state
                     (Js.quoted (Task.title task) +:+ " is already complete"))
                  None)
         else
           let* newState := completeTask state (Task.id task) in
           ret (ToolResult.mk newState
                              (Some ("Completed " +:+ Js.quoted (Task.title task))))
     end).
Proof. reflexivity. Qed.

Lemma processToolCall_uncomplete_task input state :
  processToolCall "uncomplete_task" input state
  = (let* identifier := defined "toLowerCase" (Input.taskIdentifier input) in
     match findTaskByIdentifier (TaskState.tasks state) identifier with
     | None =>
         ret (ToolResult.mk (withMessage state (notFoundMessage identifier)) None)
     | Some task =>
         if negb (Task.completed task) then
           ret (ToolResult.mk
                  (withMessage state
                     (Js.quoted (Task.title task) +:+ " is already active"))
                  None)
         else
           ret (ToolResult.mk (uncompleteTask state (Task.id task))
                              (Some ("Marked " +:+ Js.quoted (Task.title task)
                                     +:+ " as active")))
     end).
Proof. reflexivity. Qed.

Lemma processToolCall_delete_task input state :
  processToolCall "delete_task" input state
  = (let* identifier := defined "toLowerCase" (Input.taskIdentifier input) in
     match findTaskByIdentifier (TaskState.tasks state) identifier with
     | None =>
         ret (ToolResult.mk (withMessage state (notFoundMessage identifier)) None)
     | Some task =>
         ret (ToolResult.mk (deleteTask state (Task.id task))
                            (Some ("Deleted " +:+ Js.quoted (Task.title task))))
     end).
Proof. reflexivity. Qed.

Lemma processToolCall_filter_tasks input state :
  processToolCall "filter_tasks" input state
  = (let filter := createFilter (Input.filterType input) (Input.filterValue input) in
     ret (ToolResult.mk
            (TaskState.mk (TaskState.tasks state) filter (TaskState.agentMessage state))
            (if Js.truthy filter
             then Some ("Filtering by " +:+ default "undefined" (Input.filterType input))
             else Some "Showing all tasks"))).
Proof. reflexivity. Qed.

Lemma processToolCall_unknown toolName input state :
  toolName ∉ ["add_task"; "complete_task"; "uncomplete_task"; "delete_task";
              "filter_tasks"] ->
  processToolCall toolName input state = ret (ToolResult.mk state None).
Proof.
  rewrite !elem_of_cons, elem_of_nil. intros H. unfold processToolCall.
  repeat case_bool_decide; try done; exfalso; apply H; auto 10.
Qed.

(** The case analysis on the tool name. *)
Lemma toolName_cases toolName :
  toolName = "add_task" \/ toolName = "complete_task"
  \/ toolName = "uncomplete_task" \/ toolName = "delete_task"
  \/ toolName = "filter_tasks"
  \/ toolName ∉ ["add_task"; "complete_task"; "uncomplete_task"; "delete_task";
                 "filter_tasks"].
Proof.
  destruct (decide (toolName ∈ ["add_task"; "complete_task"; "uncomplete_task";
                                "delete_task"; "filter_tasks"])) as [H|H]; [|auto 10].
  rewrite !elem_of_cons, elem_of_nil in H. intuition.
Qed.

(** An absent title is the one way [add_task] fails: [title.trim()]
    throws. *)
Lemma add_task_absent_title input state w :
  Input.title input = None ->
  processToolCall "add_task" input state w = Throw (TypeError "trim").
Proof. intros H. rewrite processToolCall_add_task. unfold bind. by rewrite H. Qed.

(** C1, as the code has it: [createTask] does not validate the title.  For
    every title, also one that is empty after trimming, it returns an item
    whose title is the trimmed title -- the empty string when the title is
    all white space; [add_task] appends that item to the store and reports
    [Added "<trimmed title>"]. *)
Theorem createTask_no_validation
    (title : string) (priority : Priority) (category : string)
    (input : Input) (state : TaskState) (w : World) :
  Input.title input = Some title ->
  (exists task w',
      createTask title priority category w = Return task w'
      /\ Task.title task = Js.trim title
      /\ (blank title = true -> Task.title task = "")
      /\ Task.completed task = false)
  /\ (exists task w',
        processToolCall "add_task" input state w
        = Return (ToolResult.mk (addTask state task)
                                (Some ("Added " +:+ Js.quoted (Js.trim title))))
                 w'
        /\ Task.title task = Js.trim title
        /\ TaskState.tasks (addTask state task) = (TaskState.tasks state ++ [task])%list).
Proof.
  intros Htitle. split.
  - eexists _, _. rewrite createTask_Return. split; [reflexivity|].
    split; [reflexivity|]. split; [|reflexivity].
    intros Hblank. by apply trim_empty.
  - rewrite processToolCall_add_task. unfold bind at 1. rewrite Htitle.
    cbn [defined ret]. unfold bind at 1. rewrite createTask_Return.
    eexists _, _. split; [reflexivity|]. split; reflexivity.
Qed.

Lemma createTask_no_validation_witness :
  exists task w',
    processToolCall "add_task" (addRequest "   " medium).2 createInitialState sampleWorld
    = Return (ToolResult.mk (addTask createInitialState task)
                            (Some ("Added " +:+ Js.quoted "")))
             w'
    /\ Task.title task = "".
Proof.
  destruct (createTask_no_validation "   " medium "" (addRequest "   " medium).2
              createInitialState sampleWorld eq_refl)
    as [_ (task & w' & Hcall & Htitle & _)].
  exists task, w'. split; [exact Hcall | exact Htitle].
Defined.

(** C1, as the specification words it, fails: a title of three spaces is
    empty after trimming, yet [createTask] returns an item, with the empty
    title, and [add_task] puts it into the store. *)
Lemma createTask_validation_counterexample :
  ~ (forall title priority category w,
       Js.trim title = "" ->
       exists e, createTask title priority category w = Throw e)
  /\ Js.trim "   " = ""
  /\ exists result w',
       processToolCall "add_task" (addRequest "   " medium).2 createInitialState
                       sampleWorld
       = Return result w'
       /\ Task.title <$> TaskState.tasks (ToolResult.state result) = [""]
       /\ TaskState.tasks (ToolResult.state result)
          <> TaskState.tasks createInitialState
       /\ ToolResult.action result = Some ("Added " +:+ Js.quoted "").
Proof.
  split; [|split; [reflexivity|]].
  - intros H. destruct (H "   " medium "" sampleWorld eq_refl) as [e He].
    rewrite createTask_Return in He. discriminate He.
  - eexists _, _. split; [reflexivity|]. split; [reflexivity|].
    split; [discriminate | reflexivity].
Qed.

(** C3. Completing an item that is already complete changes nothing: the
    [complete_task] action on an identifier that resolves to an item with
    [completed = true] returns the same items and filter (so every
    [completedAt] is as before), gives no summary, and sets the message
    ["<title>" is already complete]; doing it again gives the same
    result. *)
Theorem complete_task_idempotent
    (state : TaskState) (input : Input) (identifier : string) (task : Task)
    (w : World) :
  Input.taskIdentifier input = Some identifier ->
  findTaskByIdentifier (TaskState.tasks state) identifier = Some task ->
  Task.completed task = true ->
  exists result,
    processToolCall "complete_task" input state w = Return result w
    /\ TaskState.tasks (ToolResult.state result) = TaskState.tasks state
    /\ TaskState.filter (ToolResult.state result) = TaskState.filter state
    /\ ToolResult.action result = None
    /\ TaskState.agentMessage (ToolResult.state result)
       = Some (Js.quoted (Task.title task) +:+ " is already complete")
    /\ processToolCall "complete_task" input (ToolResult.state result) w
       = Return result w.
Proof.
  intros Hid Hfind Hdone.
  exists (ToolResult.mk
            (withMessage state (Js.quoted (Task.title task) +:+ " is already complete"))
            None).
  assert (Hcall : forall s, TaskState.tasks s = TaskState.tasks state ->
            processToolCall "complete_task" input s w
            = Return (ToolResult.mk
                        (withMessage s (Js.quoted (Task.title task)
                                        +:+ " is already complete")) None) w).
  { intros s Hs. rewrite processToolCall_complete_task. unfold bind.
    rewrite Hid. cbn [defined ret]. by rewrite Hs, Hfind, Hdone. }
  split; [by apply Hcall|]. repeat split. by rewrite Hcall.
Qed.

Lemma complete_task_idempotent_witness :
  findTaskByIdentifier (TaskState.tasks sampleState) "EGGS" = Some eggs
  /\ exists result,
       processToolCall "complete_task" (taskRequest "complete_task" "EGGS").2
                       sampleState sampleWorld
       = Return result sampleWorld
       /\ TaskState.tasks (ToolResult.state result) = [milk; eggs; groceries]
       /\ ToolResult.action result = None.
Proof.
  destruct (complete_task_idempotent sampleState
              (taskRequest "complete_task" "EGGS").2 "EGGS" eggs sampleWorld
              eq_refl eq_refl eq_refl)
    as (result & Hcall & Htasks & _ & Haction & _).
  split; [reflexivity|]. exists result.
  split; [exact Hcall|]. split; [exact Htasks | exact Haction].
Defined.

(** ** State updates: properties *)

Lemma later_refl w : later w w.
Proof. unfold later. auto. Qed.

Lemma later_trans w1 w2 w3 : later w1 w2 -> later w2 w3 -> later w1 w3.
Proof.
  unfold later. intros (-> & -> & -> & ? & ?) (-> & -> & -> & ? & ?).
  repeat split; lia.
Qed.

Lemma completed_by_mono taskId w0 w w' t t' :
  later w0 w -> completed_by taskId w w' t t' -> completed_by taskId w0 w' t t'.
Proof.
  unfold later, completed_by. intros (_ & Hc & Hf & _ & Hr).
  case_bool_decide; [|done]. intros (k & Hk & ->).
  exists k. split; [lia|]. by rewrite Hc, Hf.
Qed.

(** [completeTask] always returns; it changes the items with the given id
    and no other. *)
Lemma completeTasks_spec taskId l w :
  exists l' w',
    completeTasks taskId l w = Return l' w' /\ later w w'
    /\ Forall2 (completed_by taskId w w') l l'.
Proof.
  revert w. induction l as [|t l IH]; intros w.
  - exists [], w. split; [done|]. split; [apply later_refl | constructor].
  - cbn [completeTasks]. case_bool_decide as Hid.
    + set (w1 := mkWorld (uuids w) (uuid_calls w) (clock w) (S (clock_reads w))
                         (toISOString w)).
      assert (H1 : later w w1) by (unfold later, w1; simpl; repeat split; lia).
      destruct (IH w1) as (l' & w' & Hrun & Hlater & Hall).
      exists (markComplete (toISOString w (clock w (clock_reads w))) t :: l'), w'.
      split.
      { unfold bind, nowISOString, bind, newDate, isoString. fold w1.
        unfold bind in Hrun. by rewrite Hrun. }
      split; [by eapply later_trans|].
      constructor.
      * unfold completed_by. rewrite bool_decide_eq_true_2 by done.
        exists (clock_reads w). split; [|done].
        destruct Hlater as (_ & _ & _ & _ & Hr). simpl in Hr. lia.
      * eapply Forall2_impl; [exact Hall|].
        intros u u' Hu. by eapply completed_by_mono.
    + destruct (IH w) as (l' & w' & Hrun & Hlater & Hall).
      exists (t :: l'), w'. split; [unfold bind; by rewrite Hrun|].
      split; [done|]. constructor; [|done].
      unfold completed_by. by rewrite bool_decide_eq_false_2.
Qed.

Lemma completeTask_spec state taskId w :
  exists l' w',
    completeTask state taskId w
    = Return (TaskState.mk l' (TaskState.filter state) (TaskState.agentMessage state)) w'
    /\ later w w'
    /\ Forall2 (completed_by taskId w w') (TaskState.tasks state) l'.
Proof.
  destruct (completeTasks_spec taskId (TaskState.tasks state) w)
    as (l' & w' & Hrun & Hlater & Hall).
  exists l', w'. split; [|done]. unfold completeTask, bind. by rewrite Hrun.
Qed.

Lemma uncomplete_completed taskId w w' l l' :
  Forall2 (completed_by taskId w w') l l' ->
  (fun task => if bool_decide (Task.id task = taskId) then markActive task else task)
    <$> l'
  = (fun task => if bool_decide (Task.id task = taskId) then markActive task else task)
      <$> l.
Proof.
  induction 1 as [|t t' l l' Ht _ IH]; [done|].
  rewrite !fmap_cons, IH. f_equal.
  unfold completed_by in Ht. case_bool_decide as Hid.
  - destruct Ht as (k & _ & ->). cbn [markComplete Task.id].
    by rewrite bool_decide_eq_true_2.
  - subst t'. by rewrite bool_decide_eq_false_2.
Qed.

(** Completing and then uncompleting an id is uncompleting it. *)
Lemma uncomplete_complete state taskId w :
  exists state1 w1,
    completeTask state taskId w = Return state1 w1
    /\ uncompleteTask state1 taskId = uncompleteTask state taskId.
Proof.
  destruct (completeTask_spec state taskId w) as (l' & w' & Hrun & _ & Hall).
  eexists _, _. split; [exact Hrun|].
  unfold uncompleteTask. cbn [TaskState.tasks TaskState.filter TaskState.agentMessage].
  by rewrite (uncomplete_completed taskId w w' _ _ Hall).
Qed.

Lemma uncompleteTask_active state taskId :
  (forall t, t ∈ TaskState.tasks state -> Task.id t = taskId ->
             Task.completed t = false /\ Task.completedAt t = None) ->
  uncompleteTask state taskId = state.
Proof.
  intros H. destruct state as [l f m]. unfold uncompleteTask.
  cbn [TaskState.tasks TaskState.filter TaskState.agentMessage] in *. f_equal.
  induction l as [|t l IH]; [done|]. rewrite fmap_cons. f_equal.
  - case_bool_decide as Hid; [|done].
    destruct (H t) as [Hc Ha]; [apply elem_of_cons; by left | done |].
    destruct t. cbn in *. by subst.
  - apply IH. intros u Hu. apply H, elem_of_cons. by right.
Qed.

Lemma NoDup_id_eq (l : list Task) t u :
  NoDup (Task.id <$> l) -> t ∈ l -> u ∈ l -> Task.id t = Task.id u -> t = u.
Proof.
  intros Hnodup [i Hi]%list_elem_of_lookup [j Hj]%list_elem_of_lookup Hid.
  assert (i = j) as ->.
  { apply (NoDup_lookup _ i j (Task.id t) Hnodup); rewrite list_lookup_fmap.
    - by rewrite Hi.
    - by rewrite Hj, Hid. }
  congruence.
Qed.

(** C4. Round trip.  Let [t] be an item of the store, at position [i], with
    [completed = false].  [completeTask] on its id returns a store in which
    the item is completed and stamped; [uncompleteTask] on the same id then
    gives [completed = false] and no [completedAt] for the item, with its id,
    title, priority, category and [createdAt] as they were before the
    completion.  Every item with another id -- with unique ids, the item at
    every other position -- the filter, the message and the length of the
    list are as before; when the item had no [completedAt] and ids are
    unique, the whole store is as before. *)
Theorem complete_uncomplete_round_trip
    (state : TaskState) (i : nat) (t : Task) (w : World) :
  TaskState.tasks state !! i = Some t ->
  Task.completed t = false ->
  exists state1 w1 t1 t2,
    completeTask state (Task.id t) w = Return state1 w1
    /\ TaskState.tasks state1 !! i = Some t1
    /\ Task.completed t1 = true /\ is_Some (Task.completedAt t1)
    /\ TaskState.tasks (uncompleteTask state1 (Task.id t)) !! i = Some t2
    /\ Task.completed t2 = false /\ Task.completedAt t2 = None
    /\ Task.id t2 = Task.id t /\ Task.title t2 = Task.title t
    /\ Task.priority t2 = Task.priority t /\ Task.category t2 = Task.category t
    /\ Task.createdAt t2 = Task.createdAt t
    /\ (forall j u,
          TaskState.tasks state !! j = Some u -> Task.id u <> Task.id t ->
          TaskState.tasks (uncompleteTask state1 (Task.id t)) !! j = Some u)
    /\ (NoDup (Task.id <$> TaskState.tasks state) ->
        forall j, j <> i ->
          TaskState.tasks (uncompleteTask state1 (Task.id t)) !! j
          = TaskState.tasks state !! j)
    /\ TaskState.filter (uncompleteTask state1 (Task.id t)) = TaskState.filter state
    /\ TaskState.agentMessage (uncompleteTask state1 (Task.id t))
       = TaskState.agentMessage state
    /\ length (TaskState.tasks (uncompleteTask state1 (Task.id t)))
       = length (TaskState.tasks state)
    /\ (NoDup (Task.id <$> TaskState.tasks state) ->
        Task.completedAt t = None ->
        uncompleteTask state1 (Task.id t) = state).
Proof.
  intros Hi Hactive.
  destruct (completeTask_spec state (Task.id t) w) as (l' & w1 & Hrun & _ & Hall).
  destruct (uncomplete_complete state (Task.id t) w) as (state1 & w1' & Hrun' & Hun).
  rewrite Hrun in Hrun'. injection Hrun' as <- <-.
  destruct (Forall2_lookup_l _ _ _ _ _ Hall Hi) as (t1 & Hi1 & Ht1).
  unfold completed_by in Ht1. rewrite bool_decide_eq_true_2 in Ht1 by done.
  destruct Ht1 as (k & _ & ->).
  assert (Hlookup : forall j u,
            TaskState.tasks state !! j = Some u ->
            TaskState.tasks (uncompleteTask state (Task.id t)) !! j
            = Some (if bool_decide (Task.id u = Task.id t) then markActive u else u)).
  { intros j u Hj. unfold uncompleteTask. cbn [TaskState.tasks].
    by rewrite list_lookup_fmap, Hj. }
  eexists _, w1, _, (markActive t). split; [exact Hrun|]. rewrite Hun.
  split; [exact Hi1|]. split; [done|]. split; [by eexists|].
  split; [by rewrite (Hlookup i t Hi), bool_decide_eq_true_2|].
  do 7 (split; [done|]).
  split; [|split; [|split; [|split; [|split]]]].
  - intros j u Hj Hid. by rewrite (Hlookup j u Hj), bool_decide_eq_false_2.
  - intros Hnodup j Hj.
    destruct (TaskState.tasks state !! j) as [u|] eqn:Hu.
    + rewrite (Hlookup j u Hu), bool_decide_eq_false_2; [done|].
      intros Hid. apply Hj.
      apply (NoDup_lookup _ j i (Task.id t) Hnodup); rewrite list_lookup_fmap.
      * by rewrite Hu, <- Hid.
      * by rewrite Hi.
    + unfold uncompleteTask. cbn [TaskState.tasks].
      by rewrite list_lookup_fmap, Hu.
  - done.
  - done.
  - unfold uncompleteTask. cbn [TaskState.tasks]. by rewrite length_fmap.
  - intros Hnodup Hat. apply uncompleteTask_active. intros u Hu Hid.
    assert (u = t) as ->; [|done].
    apply (NoDup_id_eq (TaskState.tasks state)); [done..| |done].
    by eapply list_elem_of_lookup_2.
Qed.

Lemma complete_uncomplete_round_trip_witness :
  exists state1 w1,
    completeTask sampleState "a" sampleWorld = Return state1 w1
    /\ (Task.completed <$> TaskState.tasks state1 !! 0%nat) = Some true
    /\ uncompleteTask state1 "a" = sampleState.
Proof.
  destruct (complete_uncomplete_round_trip sampleState 0 milk sampleWorld
              eq_refl eq_refl)
    as (state1 & w1 & t1 & t2 & Hrun & H1 & Hdone & _ & _ & _ & _ & _ & _ & _
        & _ & _ & _ & _ & _ & _ & _ & Hsame).
  exists state1, w1. split; [exact Hrun|]. split.
  - rewrite H1. cbn. by rewrite Hdone.
  - apply Hsame; [|reflexivity].
    unfold sampleState. cbn.
    repeat (apply NoDup_cons; split);
      [rewrite !elem_of_cons, elem_of_nil; intros [H|[H|[]]]; discriminate H
      |rewrite !elem_of_cons, elem_of_nil; intros [H|[]]; discriminate H
      |apply not_elem_of_nil
      |apply NoDup_nil_2].
Defined.

(** ** The tool executor: properties *)

(** The executor never reports the empty summary, so the truthiness test
    of the loop keeps every summary that is not [null]. *)
Lemma processToolCall_action toolName input state w result w' :
  processToolCall toolName input state w = Return result w' ->
  ToolResult.action result <> Some "".
Proof.
  destruct (toolName_cases toolName) as [->|[->|[->|[->|[->|Hother]]]]].
  - rewrite processToolCall_add_task. unfold bind.
    destruct (Input.title input); [|done]. cbn [defined ret].
    rewrite createTask_Return. intros [= <- _]. discriminate.
  - rewrite processToolCall_complete_task. unfold bind at 1.
    destruct (Input.taskIdentifier input) as [identifier|]; [|done].
    cbn [defined ret].
    destruct (findTaskByIdentifier _ _) as [task|]; [|by intros [= <- _]].
    destruct (Task.completed task); [by intros [= <- _]|].
    destruct (completeTask_spec state (Task.id task) w) as (l' & w1 & Hrun & _).
    unfold bind. rewrite Hrun. intros [= <- _]. discriminate.
  - rewrite processToolCall_uncomplete_task. unfold bind.
    destruct (Input.taskIdentifier input) as [identifier|]; [|done].
    cbn [defined ret].
    destruct (findTaskByIdentifier _ _) as [task|]; [|by intros [= <- _]].
    destruct (negb (Task.completed task)); intros [= <- _]; discriminate.
  - rewrite processToolCall_delete_task. unfold bind.
    destruct (Input.taskIdentifier input) as [identifier|]; [|done].
    cbn [defined ret].
    destruct (findTaskByIdentifier _ _) as [task|]; intros [= <- _]; discriminate.
  - rewrite processToolCall_filter_tasks. cbv zeta. intros [= <- _].
    cbn [ToolResult.action]. destruct (Js.truthy _); discriminate.
  - rewrite (processToolCall_unknown _ _ _ Hother). by intros [= <- _].
Qed.

(** A well-formed request is executed: the executor returns. *)
Lemma processToolCall_returns (request : Request) state w :
  well_formed request ->
  exists result w', processToolCall request.1 request.2 state w = Return result w'.
Proof.
  destruct request as [toolName input]. intros [Hadd Htask]. cbn [fst snd] in *.
  assert (Hid : toolName ∈ ["complete_task"; "uncomplete_task"; "delete_task"] ->
                exists identifier, Input.taskIdentifier input = Some identifier).
  { intros H. by apply Htask in H as [identifier ->]; eauto. }
  destruct (toolName_cases toolName) as [->|[->|[->|[->|[->|Hother]]]]].
  - destruct (Hadd eq_refl) as [title Htitle].
    rewrite processToolCall_add_task. unfold bind. rewrite Htitle.
    cbn [defined ret]. rewrite createTask_Return. eauto.
  - destruct Hid as [identifier Hidentifier]; [rewrite !elem_of_cons; auto|].
    rewrite processToolCall_complete_task. unfold bind at 1. rewrite Hidentifier.
    cbn [defined ret].
    destruct (findTaskByIdentifier _ _) as [task|]; [|unfold ret; eauto].
    destruct (Task.completed task); [unfold ret; eauto|].
    destruct (completeTask_spec state (Task.id task) w) as (l' & w1 & Hrun & _).
    unfold bind. rewrite Hrun. unfold ret. eauto.
  - destruct Hid as [identifier Hidentifier]; [rewrite !elem_of_cons; auto|].
    rewrite processToolCall_uncomplete_task. unfold bind. rewrite Hidentifier.
    cbn [defined ret].
    destruct (findTaskByIdentifier _ _) as [task|]; [|eauto].
    destruct (negb (Task.completed task)); eauto.
  - destruct Hid as [identifier Hidentifier]; [rewrite !elem_of_cons; auto|].
    rewrite processToolCall_delete_task. unfold bind. rewrite Hidentifier.
    cbn [defined ret].
    destruct (findTaskByIdentifier _ _) as [task|]; eauto.
  - rewrite processToolCall_filter_tasks. unfold ret. eauto.
  - rewrite (processToolCall_unknown _ _ _ Hother). unfold ret. eauto.
Qed.

(** The outcomes that change no item: the identifier is not found, or the
    item is already in the state asked for. *)
Lemma task_tool_not_found toolName input identifier state w :
  toolName ∈ ["complete_task"; "uncomplete_task"; "delete_task"] ->
  Input.taskIdentifier input = Some identifier ->
  findTaskByIdentifier (TaskState.tasks state) identifier = None ->
  processToolCall toolName input state w
  = Return (ToolResult.mk (withMessage state (notFoundMessage identifier)) None) w.
Proof.
  rewrite !elem_of_cons, elem_of_nil. intros [->|[->|[->|[]]]] Hid Hfind.
  - rewrite processToolCall_complete_task. unfold bind. rewrite Hid.
    cbn [defined ret]. by rewrite Hfind.
  - rewrite processToolCall_uncomplete_task. unfold bind. rewrite Hid.
    cbn [defined ret]. by rewrite Hfind.
  - rewrite processToolCall_delete_task. unfold bind. rewrite Hid.
    cbn [defined ret]. by rewrite Hfind.
Qed.

Lemma complete_task_already_complete input identifier task state w :
  Input.taskIdentifier input = Some identifier ->
  findTaskByIdentifier (TaskState.tasks state) identifier = Some task ->
  Task.completed task = true ->
  processToolCall "complete_task" input state w
  = Return (ToolResult.mk
              (withMessage state (Js.quoted (Task.title task) +:+ " is already complete"))
              None) w.
Proof.
  intros Hid Hfind Hdone. rewrite processToolCall_complete_task. unfold bind.
  rewrite Hid. cbn [defined ret]. by rewrite Hfind, Hdone.
Qed.

Lemma uncomplete_task_already_active input identifier task state w :
  Input.taskIdentifier input = Some identifier ->
  findTaskByIdentifier (TaskState.tasks state) identifier = Some task ->
  Task.completed task = false ->
  processToolCall "uncomplete_task" input state w
  = Return (ToolResult.mk
              (withMessage state (Js.quoted (Task.title task) +:+ " is already active"))
              None) w.
Proof.
  intros Hid Hfind Hdone. rewrite processToolCall_uncomplete_task. unfold bind.
  rewrite Hid. cbn [defined ret]. by rewrite Hfind, Hdone.
Qed.

(** ** The response loop: properties *)

(** The loop on any reply: the tool calls run as a batch, the text blocks
    only set the text. *)
Lemma processBlocks_spec acc content w :
  processBlocks acc content w
  = match applyBatch_spec (Loop.updatedState acc) (requests_of content) w with
    | Return final w' =>
        Return (Loop.mk final.1 (Loop.actionsTaken acc ++ final.2)
                        (reply_text content (Loop.agentTextResponse acc))) w'
    | Throw e => Throw e
    end.
Proof.
  revert acc w.
  induction content as [|[text|toolName input|] rest IH]; intros acc w.
  - destruct acc as [s a t]. cbn. by rewrite app_nil_r.
  - cbn [processBlocks processBlock]. unfold bind at 1. cbn [ret]. by rewrite IH.
  - change (requests_of (ToolUseBlock toolName input :: rest))
      with ((toolName, input) :: requests_of rest).
    cbn [processBlocks applyBatch_spec processBlock fst snd reply_text foldl].
    unfold bind at 1 2 3.
    destruct (processToolCall toolName input (Loop.updatedState acc) w)
      as [result w1|e] eqn:Hcall; [|done].
    cbn [ret]. rewrite IH.
    cbn [recordResult Loop.updatedState Loop.actionsTaken Loop.agentTextResponse].
    unfold bind.
    destruct (applyBatch_spec (ToolResult.state result) (requests_of rest) w1)
      as [[final sums] w2|e]; [|done].
    cbn [ret fst snd]. f_equal. f_equal.
    pose proof (processToolCall_action _ _ _ _ _ _ Hcall) as Hne.
    unfold summaries. destruct (ToolResult.action result) as [[|c a]|];
      cbn [Js.truthy default from_option id]; [done| |done].
    rewrite <- app_assoc. done.
  - cbn [processBlocks processBlock]. unfold bind at 1. cbn [ret]. by rewrite IH.
Qed.

Lemma requests_of_toolUses requests : requests_of (toolUses requests) = requests.
Proof.
  induction requests as [|[toolName input] rest IH]; [done|].
  unfold requests_of, toolUses in *. cbn. by rewrite IH.
Qed.

Lemma reply_text_toolUses requests text : reply_text (toolUses requests) text = text.
Proof.
  induction requests as [|[toolName input] rest IH]; [done|].
  unfold reply_text, toolUses in *. cbn. by rewrite IH.
Qed.

(** The loop with its accumulator computes what [applyBatch_spec] says. *)
Lemma processBlocks_toolUses acc requests w :
  processBlocks acc (toolUses requests) w
  = match applyBatch_spec (Loop.updatedState acc) requests w with
    | Return final w' =>
        Return (Loop.mk final.1 (Loop.actionsTaken acc ++ final.2)
                        (Loop.agentTextResponse acc)) w'
    | Throw e => Throw e
    end.
Proof.
  by rewrite processBlocks_spec, requests_of_toolUses, reply_text_toolUses.
Qed.

(** Text in the reply changes the message only: the items and the filter
    are those of the batch of its tool calls. *)
Lemma callAnthropicAPI_store content store w final w' :
  callAnthropicAPI content store w = Return final w' ->
  exists result sums,
    applyBatch_spec store (requests_of content) w = Return (result, sums) w'
    /\ TaskState.tasks final = TaskState.tasks result
    /\ TaskState.filter final = TaskState.filter result.
Proof.
  unfold callAnthropicAPI, bind. rewrite processBlocks_spec.
  cbn [Loop.updatedState].
  destruct (applyBatch_spec store (requests_of content) w)
    as [[result sums] w1|e]; [|done].
  intros [= <- <-]. by exists result, sums.
Qed.

Lemma joinedSummary_nonempty actionsTaken : joinedSummary actionsTaken <> "".
Proof.
  unfold joinedSummary. by destruct (Js.join ". " actionsTaken).
Qed.

(** With no text in the reply, the message is the aggregate of the
    summaries. *)
Lemma finish_aggregate final sums :
  finish (Loop.mk final sums "") = withMessage final (aggregate sums).
Proof.
  unfold finish, aggregate.
  cbn [Loop.updatedState Loop.actionsTaken Loop.agentTextResponse].
  destruct sums as [|a sums]; [reflexivity|].
  rewrite (bool_decide_eq_true_2 (EmptyString = EmptyString)) by reflexivity.
  rewrite (bool_decide_eq_true_2 (0 < length (a :: sums))%nat) by (simpl; lia).
  cbn [andb]. fold (joinedSummary (a :: sums)).
  by rewrite bool_decide_eq_false_2 by apply joinedSummary_nonempty.
Qed.

Lemma callAnthropicAPI_toolUses requests store w :
  callAnthropicAPI (toolUses requests) store w
  = match applyBatch_spec store requests w with
    | Return final w' => Return (withMessage final.1 (aggregate final.2)) w'
    | Throw e => Throw e
    end.
Proof.
  unfold callAnthropicAPI, bind. rewrite processBlocks_toolUses.
  cbn [Loop.updatedState Loop.actionsTaken Loop.agentTextResponse].
  destruct (applyBatch_spec store requests w) as [[final sums] w'|e]; [|done].
  cbn [ret fst snd app]. by rewrite finish_aggregate.
Qed.

Lemma callOpenAIAPI_toolUses requests store w :
  callOpenAIAPI None (Some ((fun r : Request => FunctionCall r.1 r.2) <$> requests))
                store w
  = callAnthropicAPI (toolUses requests) store w.
Proof.
  unfold callOpenAIAPI, callAnthropicAPI, toolUses.
  cbn [Js.truthy default from_option id]. by rewrite <- list_fmap_compose.
Qed.

(** A batch of well-formed requests runs to its end. *)
Lemma applyBatch_spec_returns requests store w :
  Forall well_formed requests ->
  exists final sums w', applyBatch_spec store requests w = Return (final, sums) w'.
Proof.
  intros Hwf. revert store w.
  induction Hwf as [|request rest Hreq _ IH]; intros store w.
  - by exists store, [], w.
  - destruct (processToolCall_returns request store w Hreq) as (result & w1 & Hcall).
    destruct (IH (ToolResult.state result) w1) as (final & sums & w2 & Hrest).
    exists final, (summaries result ++ sums)%list, w2.
    cbn [applyBatch_spec]. unfold bind. by rewrite Hcall, Hrest.
Qed.

(** A step without a summary leaves the rest of the batch to run on the
    store it returns. *)
Lemma callAnthropicAPI_quiet_step toolName input rest store store' w w' :
  processToolCall toolName input store w = Return (ToolResult.mk store' None) w' ->
  callAnthropicAPI (toolUses ((toolName, input) :: rest)) store w
  = callAnthropicAPI (toolUses rest) store' w'.
Proof.
  intros Hcall. rewrite !callAnthropicAPI_toolUses.
  cbn [applyBatch_spec fst snd]. unfold bind. rewrite Hcall.
  cbn [ToolResult.state summaries ToolResult.action option_list app].
  by destruct (applyBatch_spec store' rest w') as [[final sums] w2|e].
Qed.

(** After such a step alone the reply ends with the default
    acknowledgement: [finish] sets the message last. *)
Example already_complete_reply :
  exists w',
    callAnthropicAPI (toolUses [taskRequest "complete_task" "EGGS"])
                     sampleState sampleWorld
    = Return (withMessage sampleState "Done!") w'.
Proof. eexists. reflexivity. Qed.

Lemma add_task_Return title priority state w :
  processToolCall "add_task" (addRequest title priority).2 state w
  = Return
      (ToolResult.mk
         (addTask state
            (Task.mk (uuids w (uuid_calls w)) (Js.trim title) priority "" false
                     (toISOString w (clock w (clock_reads w))) None))
         (Some ("Added " +:+ Js.quoted (Js.trim title))))
      (mkWorld (uuids w) (S (uuid_calls w)) (clock w) (S (clock_reads w))
               (toISOString w)).
Proof. reflexivity. Qed.

(** The scenario of the specification, from any world. *)
Lemma milk_dog_scenario w :
  exists t1 t2 w',
    callAnthropicAPI (toolUses milk_dog_batch) createInitialState w
    = Return (TaskState.mk [t1; t2] None
                (Some ("Added " +:+ Js.quoted "buy milk" +:+ ". Added "
                       +:+ Js.quoted "walk dog" +:+ ". Completed "
                       +:+ Js.quoted "buy milk" +:+ "."))) w'
    /\ Task.title t1 = "buy milk" /\ Task.completed t1 = true
    /\ Task.title t2 = "walk dog".
Proof.
  pose proof (add_task_Return "buy milk" medium createInitialState w) as H1.
  change (Js.trim "buy milk") with "buy milk" in H1.
  set (a := Task.mk (uuids w (uuid_calls w)) "buy milk" medium "" false
                    (toISOString w (clock w (clock_reads w))) None) in H1.
  set (w1 := mkWorld (uuids w) (S (uuid_calls w)) (clock w) (S (clock_reads w))
                     (toISOString w)) in H1.
  pose proof (add_task_Return "walk dog" high (addTask createInitialState a) w1) as H2.
  change (Js.trim "walk dog") with "walk dog" in H2.
  set (b := Task.mk (uuids w1 (uuid_calls w1)) "walk dog" high "" false
                    (toISOString w1 (clock w1 (clock_reads w1))) None) in H2.
  set (w2 := mkWorld (uuids w1) (S (uuid_calls w1)) (clock w1) (S (clock_reads w1))
                     (toISOString w1)) in H2.
  set (s2 := addTask (addTask createInitialState a) b) in H2.
  destruct (completeTask_spec s2 (Task.id a) w2) as (l' & w3 & Hrun & _ & Hall).
  assert (H3 : processToolCall "complete_task" (taskRequest "complete_task" "1").2 s2 w2
               = Return (ToolResult.mk (TaskState.mk l' None None)
                           (Some ("Completed " +:+ Js.quoted "buy milk"))) w3).
  { rewrite processToolCall_complete_task. unfold bind at 1.
    cbn [defined ret taskRequest snd Input.taskIdentifier].
    change (findTaskByIdentifier (TaskState.tasks s2) "1") with (Some a).
    cbn [Task.completed a]. unfold bind. by rewrite Hrun. }
  rewrite callAnthropicAPI_toolUses. unfold milk_dog_batch.
  unfold addRequest, taskRequest in *.
  cbn [applyBatch_spec fst snd] in *. unfold bind.
  rewrite H1. cbn [ToolResult.state]. rewrite H2. cbn [ToolResult.state].
  fold s2. rewrite H3.
  cbn [ret fst snd summaries ToolResult.action ToolResult.state option_list app].
  change (TaskState.tasks s2) with [a; b] in Hall.
  apply Forall2_cons_inv_l in Hall as (t1 & l1 & Ha & Hall & ->).
  apply Forall2_cons_inv_l in Hall as (t2 & l2 & Hb & Hall & ->).
  apply Forall2_nil_inv_l in Hall as ->.
  exists t1, t2, w3. split; [reflexivity|].
  unfold completed_by in Ha, Hb.
  rewrite bool_decide_eq_true_2 in Ha by done.
  destruct Ha as (k & _ & ->).
  split; [reflexivity|]. split; [reflexivity|].
  case_bool_decide; [destruct Hb as (k2 & _ & ->) | subst t2]; reflexivity.
Qed.

(** C2. The response loop applies a batch as the specification says: the
    requests run in the given order, each on the store the previous one
    returned; the summaries that are not [null] are collected in that order
    and joined with a period and a space (and closed with a period).  From
    the empty store, [Add("buy milk", medium); Add("walk dog", high);
    Complete("1")] gives two items, the first titled [buy milk] and
    completed, and the message
    [Added "buy milk". Added "walk dog". Completed "buy milk".]  A request
    whose identifier is not found, or whose item is already in the state
    asked for, does not stop the batch: the rest runs on the store it
    returned. *)
Theorem callAnthropicAPI_applies_batch
    (requests : list Request) (store : TaskState) (w : World) :
  Forall well_formed requests ->
  (exists final sums w',
      applyBatch_spec store requests w = Return (final, sums) w'
      /\ callAnthropicAPI (toolUses requests) store w
         = Return (withMessage final (aggregate sums)) w'
      /\ callOpenAIAPI None
           (Some ((fun r : Request => FunctionCall r.1 r.2) <$> requests)) store w
         = Return (withMessage final (aggregate sums)) w')
  /\ (forall content final w',
        callAnthropicAPI content store w = Return final w' ->
        exists result sums,
          applyBatch_spec store (requests_of content) w = Return (result, sums) w'
          /\ TaskState.tasks final = TaskState.tasks result
          /\ TaskState.filter final = TaskState.filter result)
  /\ (forall acc toolName input rest,
        processBlocks acc (ToolUseBlock toolName input :: rest) w
        = match processToolCall toolName input (Loop.updatedState acc) w with
          | Return result w1 => processBlocks (recordResult acc result) rest w1
          | Throw e => Throw e
          end)
  /\ (exists t1 t2 w',
        callAnthropicAPI (toolUses milk_dog_batch) createInitialState w
        = Return (TaskState.mk [t1; t2] None
                    (Some ("Added " +:+ Js.quoted "buy milk" +:+ ". Added "
                           +:+ Js.quoted "walk dog" +:+ ". Completed "
                           +:+ Js.quoted "buy milk" +:+ "."))) w'
        /\ Task.title t1 = "buy milk" /\ Task.completed t1 = true
        /\ Task.title t2 = "walk dog")
  /\ (forall toolName input identifier rest,
        toolName ∈ ["complete_task"; "uncomplete_task"; "delete_task"] ->
        Input.taskIdentifier input = Some identifier ->
        findTaskByIdentifier (TaskState.tasks store) identifier = None ->
        callAnthropicAPI (toolUses ((toolName, input) :: rest)) store w
        = callAnthropicAPI (toolUses rest)
            (withMessage store (notFoundMessage identifier)) w)
  /\ (forall input identifier task rest,
        Input.taskIdentifier input = Some identifier ->
        findTaskByIdentifier (TaskState.tasks store) identifier = Some task ->
        (Task.completed task = true ->
         callAnthropicAPI (toolUses (("complete_task", input) :: rest)) store w
         = callAnthropicAPI (toolUses rest)
             (withMessage store (Js.quoted (Task.title task) +:+ " is already complete"))
             w)
        /\ (Task.completed task = false ->
            callAnthropicAPI (toolUses (("uncomplete_task", input) :: rest)) store w
            = callAnthropicAPI (toolUses rest)
                (withMessage store (Js.quoted (Task.title task) +:+ " is already active"))
                w)).
Proof.
  intros Hwf. split; [|split; [|split; [|split; [|split]]]].
  - destruct (applyBatch_spec_returns requests store w Hwf)
      as (final & sums & w' & Hrun).
    exists final, sums, w'. split; [done|].
    rewrite callOpenAIAPI_toolUses, callAnthropicAPI_toolUses, Hrun. done.
  - intros content final w'. apply callAnthropicAPI_store.
  - intros acc toolName input rest. cbn [processBlocks processBlock]. unfold bind.
    by destruct (processToolCall toolName input (Loop.updatedState acc) w).
  - apply milk_dog_scenario.
  - intros toolName input identifier rest Htool Hid Hfind.
    apply callAnthropicAPI_quiet_step. by apply task_tool_not_found.
  - intros input identifier task rest Hid Hfind. split; intros Hdone.
    + apply callAnthropicAPI_quiet_step.
      by apply (complete_task_already_complete input identifier).
    + apply callAnthropicAPI_quiet_step.
      by apply (uncomplete_task_already_active input identifier).
Qed.

Lemma callAnthropicAPI_applies_batch_witness :
  Forall well_formed
    [addRequest "a" medium; taskRequest "complete_task" "9";
     taskRequest "complete_task" "A"; taskRequest "complete_task" "a";
     taskRequest "delete_task" "last"]
  /\ exists final sums w',
       applyBatch_spec createInitialState
         [addRequest "a" medium; taskRequest "complete_task" "9";
          taskRequest "complete_task" "A"; taskRequest "complete_task" "a";
          taskRequest "delete_task" "last"] sampleWorld
       = Return (final, sums) w'
       /\ callAnthropicAPI
            (toolUses
               [addRequest "a" medium; taskRequest "complete_task" "9";
                taskRequest "complete_task" "A"; taskRequest "complete_task" "a";
                taskRequest "delete_task" "last"])
            createInitialState sampleWorld
          = Return (withMessage final (aggregate sums)) w'.
Proof.
  assert (Hwf : Forall well_formed
            [addRequest "a" medium; taskRequest "complete_task" "9";
             taskRequest "complete_task" "A"; taskRequest "complete_task" "a";
             taskRequest "delete_task" "last"]).
  { repeat (apply Forall_cons; split); [well_formed_literal..|apply Forall_nil_2]. }
  destruct (callAnthropicAPI_applies_batch _ createInitialState sampleWorld Hwf)
    as [(final & sums & w' & Hspec & Hcode & _) _].
  split; [exact Hwf|]. exists final, sums, w'. split; [exact Hspec | exact Hcode].
Defined.

(** ** The invariant on [completedAt] *)

Lemma stamped_markComplete now task : stamped (markComplete now task).
Proof. unfold stamped. cbn. split; eauto. Qed.

Lemma stamped_markActive task : stamped (markActive task).
Proof. unfold stamped. cbn. split; [done | by intros [? ?]]. Qed.

Lemma stamped_active i t p c created :
  stamped (Task.mk i t p c false created None).
Proof. unfold stamped. cbn. split; [done | by intros [? ?]]. Qed.

Lemma stamped_completed i t p c created at_ :
  stamped (Task.mk i t p c true created (Some at_)).
Proof. unfold stamped. cbn. split; eauto. Qed.

Create HintDb stamped.
#[local] Hint Resolve stamped_markComplete stamped_markActive stamped_active
  stamped_completed Forall_nil_2 : stamped.

Lemma stamped_sublist l1 l2 :
  l1 `sublist_of` l2 -> Forall stamped l2 -> Forall stamped l1.
Proof.
  rewrite !Forall_forall. intros Hsub H t Ht. apply H. by eapply elem_of_sublist.
Qed.

Lemma stamped_completed_by taskId w w' l l' :
  Forall2 (completed_by taskId w w') l l' -> Forall stamped l -> Forall stamped l'.
Proof.
  induction 1 as [|t t' l l' Ht _ IH]; [done|].
  rewrite !Forall_cons. intros [Hs Hl]. split; [|by apply IH].
  unfold completed_by in Ht. case_bool_decide.
  - destruct Ht as (k & _ & ->). auto with stamped.
  - by subst t'.
Qed.

Lemma stamped_uncompleteTask state taskId :
  Forall stamped (TaskState.tasks state) ->
  Forall stamped (TaskState.tasks (uncompleteTask state taskId)).
Proof.
  unfold uncompleteTask. cbn [TaskState.tasks]. rewrite Forall_fmap.
  intros H. eapply Forall_impl; [exact H|].
  intros t Ht. cbn. case_bool_decide; [|done].
  apply stamped_markActive.
Qed.

Lemma stamped_deleteTask state taskId :
  Forall stamped (TaskState.tasks state) ->
  Forall stamped (TaskState.tasks (deleteTask state taskId)).
Proof. apply stamped_sublist, sublist_filter. Qed.

Lemma stamped_addTask state task :
  Forall stamped (TaskState.tasks state) -> stamped task ->
  Forall stamped (TaskState.tasks (addTask state task)).
Proof.
  intros Hs Ht. unfold addTask. cbn [TaskState.tasks].
  apply Forall_app. split; [done|]. by apply Forall_singleton.
Qed.

Lemma createDemoState_Return w :
  exists id1 id2 id3 c1 c2 c3 d3 msg w',
    createDemoState w
    = Return (TaskState.mk
                [ Task.mk id1 "Review pull request" high "work" false c1 None;
                  Task.mk id2 "Buy groceries" medium "personal" false c2 None;
                  Task.mk id3 "Schedule dentist appointment" low "personal" true
                          c3 (Some d3) ]
                None (Some msg)) w'.
Proof. do 9 eexists. reflexivity. Qed.

(** An item that is found is an item of the list. *)
Lemma findTaskByIdentifier_elem tasks identifier task :
  findTaskByIdentifier tasks identifier = Some task -> task ∈ tasks.
Proof.
  unfold findTaskByIdentifier.
  destruct (positional _ _) as [i|]; [apply list_elem_of_lookup_2|].
  destruct (_ || _); [case_bool_decide; [apply list_elem_of_lookup_2 | done]|].
  destruct (_ || _); [case_bool_decide; [apply list_elem_of_lookup_2 | done]|].
  intros Hfind. apply list_elem_of_In. by apply List.find_some in Hfind as [Hfind _].
Qed.

(** Every action of the executor keeps the invariant. *)
Lemma stamped_processToolCall toolName input state w result w' :
  Forall stamped (TaskState.tasks state) ->
  processToolCall toolName input state w = Return result w' ->
  Forall stamped (TaskState.tasks (ToolResult.state result)).
Proof.
  intros Hs.
  destruct (toolName_cases toolName) as [->|[->|[->|[->|[->|Hother]]]]].
  - rewrite processToolCall_add_task. unfold bind.
    destruct (Input.title input); [|done]. cbn [defined ret].
    rewrite createTask_Return. intros [= <- _]. cbn [ToolResult.state].
    apply stamped_addTask; [done | apply stamped_active].
  - rewrite processToolCall_complete_task. unfold bind at 1.
    destruct (Input.taskIdentifier input) as [identifier|]; [|done].
    cbn [defined ret].
    destruct (findTaskByIdentifier _ _) as [task|]; [|by intros [= <- _]].
    destruct (Task.completed task); [by intros [= <- _]|].
    destruct (completeTask_spec state (Task.id task) w) as (l' & w1 & Hrun & _ & Hall).
    unfold bind. rewrite Hrun. intros [= <- _]. cbn [ToolResult.state TaskState.tasks].
    by eapply stamped_completed_by.
  - rewrite processToolCall_uncomplete_task. unfold bind.
    destruct (Input.taskIdentifier input) as [identifier|]; [|done].
    cbn [defined ret].
    destruct (findTaskByIdentifier _ _) as [task|]; [|by intros [= <- _]].
    destruct (negb (Task.completed task)); intros [= <- _]; [done|].
    by apply stamped_uncompleteTask.
  - rewrite processToolCall_delete_task. unfold bind.
    destruct (Input.taskIdentifier input) as [identifier|]; [|done].
    cbn [defined ret].
    destruct (findTaskByIdentifier _ _) as [task|]; intros [= <- _]; [|done].
    by apply stamped_deleteTask.
  - rewrite processToolCall_filter_tasks. cbv zeta. by intros [= <- _].
  - rewrite (processToolCall_unknown _ _ _ Hother). by intros [= <- _].
Qed.

Lemma stamped_processBlocks content acc w acc' w' :
  Forall stamped (TaskState.tasks (Loop.updatedState acc)) ->
  processBlocks acc content w = Return acc' w' ->
  Forall stamped (TaskState.tasks (Loop.updatedState acc')).
Proof.
  revert acc w. induction content as [|block rest IH]; intros acc w Hs.
  - by intros [= <- _].
  - cbn [processBlocks]. unfold bind at 1.
    destruct (processBlock acc block w) as [acc1 w1|e] eqn:Hblock; [|done].
    apply IH. destruct block as [text|toolName input|]; cbn [processBlock] in Hblock.
    + by injection Hblock as <- _.
    + unfold bind in Hblock.
      destruct (processToolCall toolName input (Loop.updatedState acc) w)
        as [result w2|e] eqn:Hcall; [|done].
      injection Hblock as <- _. cbn [recordResult Loop.updatedState].
      by eapply stamped_processToolCall.
    + by injection Hblock as <- _.
Qed.

(** [completeTask] stamps the items with the given id with a time read
    during the call, and touches no other item. *)
Lemma completeTask_transitions state taskId w :
  exists state' w',
    completeTask state taskId w = Return state' w'
    /\ (Forall stamped (TaskState.tasks state) ->
        Forall stamped (TaskState.tasks state'))
    /\ forall i t t',
         TaskState.tasks state !! i = Some t ->
         TaskState.tasks state' !! i = Some t' ->
         (Task.id t <> taskId -> t' = t)
         /\ (Task.id t = taskId ->
             Task.completed t' = true
             /\ exists k, (clock_reads w <= k < clock_reads w')%nat
                          /\ Task.completedAt t'
                             = Some (toISOString w (clock w k))).
Proof.
  destruct (completeTask_spec state taskId w) as (l' & w' & Hrun & _ & Hall).
  eexists _, w'. split; [exact Hrun|]. cbn [TaskState.tasks].
  split; [by apply stamped_completed_by with taskId w w'|].
  intros i t t' Hi Hi'.
  pose proof (Forall2_lookup_lr _ _ _ _ _ _ Hall Hi Hi') as Ht.
  unfold completed_by in Ht. case_bool_decide as Hid; split; try done.
  intros _. destruct Ht as (k & Hk & ->). split; [done|]. by exists k.
Qed.

Lemma uncompleteTask_transitions state taskId i t t' :
  TaskState.tasks state !! i = Some t ->
  TaskState.tasks (uncompleteTask state taskId) !! i = Some t' ->
  (Task.id t <> taskId -> t' = t)
  /\ (Task.id t = taskId ->
      Task.completed t' = false /\ Task.completedAt t' = None).
Proof.
  unfold uncompleteTask. cbn [TaskState.tasks]. intros Hi.
  rewrite list_lookup_fmap, Hi. cbn [fmap option_fmap option_map].
  intros [= <-]. case_bool_decide; split; done.
Qed.

(** With unique ids the [complete_task] action changes [completedAt] only
    where [completed] goes from false to true. *)
Lemma complete_task_exact state input w result w' i t t' :
  NoDup (Task.id <$> TaskState.tasks state) ->
  processToolCall "complete_task" input state w = Return result w' ->
  TaskState.tasks state !! i = Some t ->
  TaskState.tasks (ToolResult.state result) !! i = Some t' ->
  Task.completedAt t' <> Task.completedAt t ->
  Task.completed t = false /\ Task.completed t' = true.
Proof.
  intros Hnodup Hcall Hi Hi' Hne. revert Hcall.
  rewrite processToolCall_complete_task. unfold bind at 1.
  destruct (Input.taskIdentifier input) as [identifier|]; [|done].
  cbn [defined ret].
  destruct (findTaskByIdentifier _ _) as [task|] eqn:Hfind;
    [|intros [= <- _]; cbn in Hi'; congruence].
  destruct (Task.completed task) eqn:Hdone;
    [intros [= <- _]; cbn in Hi'; congruence|].
  destruct (completeTask_spec state (Task.id task) w) as (l' & w1 & Hrun & _ & Hall).
  unfold bind. rewrite Hrun. intros [= <- _].
  cbn [ToolResult.state TaskState.tasks] in Hi'.
  pose proof (Forall2_lookup_lr _ _ _ _ _ _ Hall Hi Hi') as Ht.
  unfold completed_by in Ht. case_bool_decide as Hid; [|congruence].
  destruct Ht as (k & _ & ->). split; [|done].
  assert (t = task) as ->; [|done].
  apply (NoDup_id_eq (TaskState.tasks state)); [done| |by eapply findTaskByIdentifier_elem|done].
  by eapply list_elem_of_lookup_2.
Qed.

(** On a store that satisfies the invariant the [uncomplete_task] action
    changes [completedAt] only where [completed] goes from true to
    false. *)
Lemma uncomplete_task_exact state input w result w' i t t' :
  Forall stamped (TaskState.tasks state) ->
  processToolCall "uncomplete_task" input state w = Return result w' ->
  TaskState.tasks state !! i = Some t ->
  TaskState.tasks (ToolResult.state result) !! i = Some t' ->
  Task.completedAt t' <> Task.completedAt t ->
  Task.completed t = true /\ Task.completed t' = false.
Proof.
  intros Hs Hcall Hi Hi' Hne. revert Hcall.
  rewrite processToolCall_uncomplete_task. unfold bind.
  destruct (Input.taskIdentifier input) as [identifier|]; [|done].
  cbn [defined ret].
  destruct (findTaskByIdentifier _ _) as [task|] eqn:Hfind;
    [|intros [= <- _]; cbn in Hi'; congruence].
  destruct (negb (Task.completed task));
    [intros [= <- _]; cbn in Hi'; congruence|].
  intros [= <- _]. cbn [ToolResult.state] in Hi'.
  destruct (uncompleteTask_transitions state (Task.id task) i t t' Hi Hi') as [Hother Hsame].
  destruct (decide (Task.id t = Task.id task)) as [Hid|Hid];
    [|by rewrite (Hother Hid) in Hne].
  destruct (Hsame Hid) as [Hc Ha]. split; [|done].
  rewrite Forall_lookup in Hs. apply (Hs i t Hi).
  rewrite Ha in Hne. by destruct (Task.completedAt t); [eexists|].
Qed.

(** C5. The invariant "[completedAt] is present if and only if
    [completed] is true" holds in a new store (empty or demo) and for a new
    item, and every operation keeps it: appending, [completeTask],
    [uncompleteTask], [deleteTask], every action of the executor (the
    filter action among them) and a whole reply.  [completeTask] stamps
    [completedAt] with a time read during the call on the items it
    completes, [uncompleteTask] clears it on the items it makes active, and
    items with another id are not touched.  In the executor, with unique
    ids, [completedAt] changes only where [completed] goes from false to
    true (complete) or from true to false (uncomplete). *)
Theorem completedAt_invariant (state : TaskState) (w : World) :
  Forall stamped (TaskState.tasks state) ->
  Forall stamped (TaskState.tasks createInitialState)
  /\ (exists demo w',
        createDemoState w = Return demo w'
        /\ Forall stamped (TaskState.tasks demo))
  /\ (forall title priority category,
        exists task w',
          createTask title priority category w = Return task w'
          /\ stamped task /\ Task.completed task = false
          /\ Forall stamped (TaskState.tasks (addTask state task)))
  /\ (forall taskId,
        exists state' w',
          completeTask state taskId w = Return state' w'
          /\ Forall stamped (TaskState.tasks state')
          /\ forall i t t',
               TaskState.tasks state !! i = Some t ->
               TaskState.tasks state' !! i = Some t' ->
               (Task.id t <> taskId -> t' = t)
               /\ (Task.id t = taskId ->
                   Task.completed t' = true
                   /\ exists k, (clock_reads w <= k < clock_reads w')%nat
                                /\ Task.completedAt t'
                                   = Some (toISOString w (clock w k))))
  /\ (forall taskId,
        Forall stamped (TaskState.tasks (uncompleteTask state taskId))
        /\ forall i t t',
             TaskState.tasks state !! i = Some t ->
             TaskState.tasks (uncompleteTask state taskId) !! i = Some t' ->
             (Task.id t <> taskId -> t' = t)
             /\ (Task.id t = taskId ->
                 Task.completed t' = false /\ Task.completedAt t' = None))
  /\ (forall taskId, Forall stamped (TaskState.tasks (deleteTask state taskId)))
  /\ (forall toolName input result w',
        processToolCall toolName input state w = Return result w' ->
        Forall stamped (TaskState.tasks (ToolResult.state result)))
  /\ (forall content final w',
        callAnthropicAPI content state w = Return final w' ->
        Forall stamped (TaskState.tasks final))
  /\ (NoDup (Task.id <$> TaskState.tasks state) ->
      forall input result w' i t t',
        processToolCall "complete_task" input state w = Return result w' ->
        TaskState.tasks state !! i = Some t ->
        TaskState.tasks (ToolResult.state result) !! i = Some t' ->
        Task.completedAt t' <> Task.completedAt t ->
        Task.completed t = false /\ Task.completed t' = true)
  /\ (forall input result w' i t t',
        processToolCall "uncomplete_task" input state w = Return result w' ->
        TaskState.tasks state !! i = Some t ->
        TaskState.tasks (ToolResult.state result) !! i = Some t' ->
        Task.completedAt t' <> Task.completedAt t ->
        Task.completed t = true /\ Task.completed t' = false).
Proof.
  intros Hs. repeat apply conj.
  - constructor.
  - destruct (createDemoState_Return w)
      as (id1 & id2 & id3 & c1 & c2 & c3 & d3 & msg & w' & ->).
    eexists _, _. split; [reflexivity|]. cbn [TaskState.tasks].
    repeat (apply Forall_cons; split); auto with stamped.
  - intros title priority category. rewrite createTask_Return.
    eexists _, _. split; [reflexivity|].
    split; [apply stamped_active|]. split; [done|].
    apply stamped_addTask; [done | apply stamped_active].
  - intros taskId.
    destruct (completeTask_transitions state taskId w) as (state' & w' & Hrun & Hkeep & Ht).
    exists state', w'. split; [done|]. split; [by apply Hkeep | done].
  - intros taskId. split; [by apply stamped_uncompleteTask|].
    intros i t t'. apply uncompleteTask_transitions.
  - intros taskId. by apply stamped_deleteTask.
  - intros toolName input result w'. by apply stamped_processToolCall.
  - intros content final w'. unfold callAnthropicAPI, bind.
    destruct (processBlocks _ content w) as [acc w1|e] eqn:Hrun; [|done].
    intros [= <- _]. unfold finish, withMessage. cbn [TaskState.tasks].
    exact (stamped_processBlocks content (Loop.mk state [] "") w acc w1 Hs Hrun).
  - intros Hnodup input result w' i t t'. by apply complete_task_exact.
  - intros input result w' i t t'. by apply uncomplete_task_exact.
Qed.

Lemma completedAt_invariant_witness :
  Forall stamped (TaskState.tasks sampleState)
  /\ exists state' w',
       completeTask sampleState "a" sampleWorld = Return state' w'
       /\ Forall stamped (TaskState.tasks state')
       /\ Forall stamped (TaskState.tasks (uncompleteTask sampleState "b")).
Proof.
  assert (Hs : Forall stamped (TaskState.tasks sampleState)).
  { unfold sampleState, milk, eggs, groceries, sampleTask. cbn [TaskState.tasks].
    repeat (apply Forall_cons; split); auto with stamped. }
  destruct (completedAt_invariant sampleState sampleWorld Hs)
    as (_ & _ & _ & Hcomplete & Huncomplete & _).
  destruct (Hcomplete "a") as (state' & w' & Hrun & Hkeep & _).
  destruct (Huncomplete "b") as [Hun _].
  split; [exact Hs|]. exists state', w'.
  split; [exact Hrun|]. split; [exact Hkeep | exact Hun].
Defined.

(** * Further properties of the code *)

(** ** Keywords and positions *)

Lemma findTaskByIdentifier_numeral' tasks k :
  (1 <= k <= length tasks)%nat ->
  findTaskByIdentifier tasks (numeral k) = tasks !! (k - 1)%nat.
Proof.
  intros Hk.
  pose proof (findTaskByIdentifier_numeral tasks "" k "" eq_refl eq_refl Hk) as H.
  by rewrite append_empty_r in H.
Qed.

Lemma last_index (tasks : list Task) :
  (if bool_decide (0 < length tasks)%nat
   then tasks !! (length tasks - 1)%nat else None) = last tasks.
Proof.
  rewrite last_lookup. case_bool_decide as H.
  - f_equal. lia.
  - destruct tasks; [done | simpl in H; lia].
Qed.

Lemma first_index (tasks : list Task) :
  (if bool_decide (0 < length tasks)%nat then tasks !! 0%nat else None) = head tasks.
Proof. by destruct tasks. Qed.

(** X1. The keywords: an identifier whose normal form is [last] or
    [last task] resolves to the last item of the list, one whose normal form
    is [first] or [first task] to the first item; the result is undefined
    exactly when the list is empty.  In particular the item that [addTask]
    has just appended is the one [last] names. *)
Theorem findTaskByIdentifier_keywords
    (tasks : list Task) (identifier : string) (state : TaskState) (task : Task) :
  normalize identifier ∈ keywords ->
  findTaskByIdentifier tasks identifier
  = (if bool_decide (normalize identifier ∈ ["last"; "last task"])
     then last tasks else head tasks)
  /\ (findTaskByIdentifier tasks identifier = None <-> tasks = [])
  /\ findTaskByIdentifier (TaskState.tasks (addTask state task)) identifier
     = (if bool_decide (normalize identifier ∈ ["last"; "last task"])
        then Some task else head (TaskState.tasks state ++ [task])).
Proof.
  intros Hkw.
  assert (Hfind : forall l,
            findTaskByIdentifier l identifier
            = if bool_decide (normalize identifier ∈ ["last"; "last task"])
              then last l else head l).
  { intros l. unfold findTaskByIdentifier. cbv zeta. fold (normalize identifier).
    rewrite last_index, first_index.
    unfold keywords in Hkw. rewrite !elem_of_cons, elem_of_nil in Hkw.
    destruct Hkw as [->|[->|[->|[->|[]]]]]; reflexivity. }
  split; [apply Hfind|]. split.
  - rewrite Hfind. case_bool_decide.
    + apply last_None.
    + by destruct tasks.
  - rewrite Hfind. unfold addTask. cbn [TaskState.tasks].
    case_bool_decide; [apply last_snoc | done].
Qed.

Lemma findTaskByIdentifier_keywords_witness :
  (normalize "  Last Task " ∈ keywords)
  /\ findTaskByIdentifier [milk; eggs; groceries] "  Last Task " = Some groceries
  /\ findTaskByIdentifier [] "  Last Task " = None.
Proof.
  assert (Hkw : normalize "  Last Task " ∈ keywords).
  { unfold keywords. rewrite !elem_of_cons. right. left. reflexivity. }
  destruct (findTaskByIdentifier_keywords [milk; eggs; groceries] "  Last Task "
              sampleState milk Hkw) as (H1 & _ & _).
  destruct (findTaskByIdentifier_keywords [] "  Last Task " sampleState milk Hkw)
    as (_ & H2 & _).
  split; [exact Hkw|]. split; [exact H1 | by apply H2].
Defined.

(** X2. Appending keeps the positions: after [addTask], every number from
    1 to the old length resolves to the item it resolved to before, and the
    next number resolves to the new item. *)
Theorem addTask_positions (state : TaskState) (task : Task) (k : nat) :
  (1 <= k <= length (TaskState.tasks state))%nat ->
  findTaskByIdentifier (TaskState.tasks (addTask state task)) (numeral k)
  = findTaskByIdentifier (TaskState.tasks state) (numeral k)
  /\ is_Some (findTaskByIdentifier (TaskState.tasks state) (numeral k))
  /\ findTaskByIdentifier (TaskState.tasks (addTask state task))
       (numeral (S (length (TaskState.tasks state))))
     = Some task.
Proof.
  intros Hk. unfold addTask. cbn [TaskState.tasks].
  rewrite !findTaskByIdentifier_numeral' by (rewrite ?length_app; simpl; lia).
  split; [apply lookup_app_l; lia|]. split; [apply lookup_lt_is_Some; lia|].
  replace (S (length (TaskState.tasks state)) - 1)%nat
    with (length (TaskState.tasks state) + 0)%nat by lia.
  by rewrite lookup_app_r, Nat.add_comm, Nat.add_sub by lia.
Qed.

Lemma addTask_positions_witness :
  findTaskByIdentifier (TaskState.tasks (addTask sampleState milk)) "2" = Some eggs
  /\ findTaskByIdentifier (TaskState.tasks (addTask sampleState milk)) "4" = Some milk.
Proof.
  destruct (addTask_positions sampleState milk 2) as (H1 & _ & H2);
    [simpl; lia|].
  split; [exact H1 | exact H2].
Defined.

(** ** Deleting *)

Lemma filter_all {A} (P : A -> Prop) `{!forall x, Decision (P x)} (l : list A) :
  Forall P l -> base.filter P l = l.
Proof.
  induction 1 as [|x l Hx _ IH]; [done|].
  by rewrite filter_cons_True, IH.
Qed.

Lemma deleteTask_elem state taskId u :
  u ∈ TaskState.tasks (deleteTask state taskId)
  <-> u ∈ TaskState.tasks state /\ Task.id u <> taskId.
Proof.
  unfold deleteTask. cbn [TaskState.tasks]. rewrite list_elem_of_filter. tauto.
Qed.

Lemma deleteTask_absent state taskId :
  taskId ∉ Task.id <$> TaskState.tasks state -> deleteTask state taskId = state.
Proof.
  intros Habs. destruct state as [l f m]. unfold deleteTask.
  cbn [TaskState.tasks TaskState.filter TaskState.agentMessage] in *. f_equal.
  apply filter_all, Forall_forall. intros u Hu Hid. apply Habs.
  rewrite <- Hid. by apply list_elem_of_fmap_2.
Qed.

Lemma deleteTask_at state i t :
  NoDup (Task.id <$> TaskState.tasks state) ->
  TaskState.tasks state !! i = Some t ->
  TaskState.tasks (deleteTask state (Task.id t))
  = (take i (TaskState.tasks state) ++ drop (S i) (TaskState.tasks state))%list.
Proof.
  intros Hnodup Hi. unfold deleteTask. cbn [TaskState.tasks].
  rewrite <- (take_drop_middle _ _ _ Hi) at 1.
  rewrite <- (take_drop_middle _ _ _ Hi), fmap_app, fmap_cons in Hnodup.
  apply NoDup_app in Hnodup as (_ & Hl & Hr%NoDup_cons).
  destruct Hr as [Hr _].
  rewrite filter_app, filter_cons, decide_False by (intros H; by apply H).
  rewrite !filter_all; [done| |].
  - apply Forall_forall. intros u Hu Hid. apply Hr.
    rewrite <- Hid. by apply list_elem_of_fmap_2.
  - apply Forall_forall. intros u Hu Hid. apply (Hl (Task.id u)).
    + by apply list_elem_of_fmap_2.
    + rewrite Hid. apply elem_of_cons. by left.
Qed.

(** X3. [deleteTask] on the id of the item at position [i] of a store with
    unique ids removes that item and no other: the result is the list
    without position [i], one item shorter; no item with the id is left,
    every other item stays, the positions before [i] keep their items and
    the positions from [i] on take the item that followed.  Deleting the
    same id again changes nothing. *)
Theorem deleteTask_removes_one (state : TaskState) (i : nat) (t : Task) :
  NoDup (Task.id <$> TaskState.tasks state) ->
  TaskState.tasks state !! i = Some t ->
  TaskState.tasks (deleteTask state (Task.id t))
  = (take i (TaskState.tasks state) ++ drop (S i) (TaskState.tasks state))%list
  /\ S (length (TaskState.tasks (deleteTask state (Task.id t))))
     = length (TaskState.tasks state)
  /\ (forall u, u ∈ TaskState.tasks (deleteTask state (Task.id t))
                <-> u ∈ TaskState.tasks state /\ Task.id u <> Task.id t)
  /\ (forall j, (j < i)%nat ->
        TaskState.tasks (deleteTask state (Task.id t)) !! j
        = TaskState.tasks state !! j)
  /\ (forall j, (i <= j)%nat ->
        TaskState.tasks (deleteTask state (Task.id t)) !! j
        = TaskState.tasks state !! S j)
  /\ deleteTask (deleteTask state (Task.id t)) (Task.id t)
     = deleteTask state (Task.id t).
Proof.
  intros Hnodup Hi. pose proof (lookup_lt_Some _ _ _ Hi) as Hlt.
  rewrite (deleteTask_at state i t Hnodup Hi).
  split; [done|]. split; [rewrite length_app, length_take, length_drop; lia|].
  split; [intros u; rewrite <- (deleteTask_at state i t Hnodup Hi);
          apply deleteTask_elem|].
  split; [|split].
  - intros j Hj. rewrite lookup_app_l by (rewrite length_take; lia).
    by apply lookup_take_lt.
  - intros j Hj. rewrite lookup_app_r by (rewrite length_take; lia).
    rewrite lookup_drop, length_take. f_equal. lia.
  - apply deleteTask_absent. intros Hin.
    apply list_elem_of_fmap in Hin as (u & Hid & Hu).
    apply deleteTask_elem in Hu as [_ Hu]. by apply Hu.
Qed.

Lemma deleteTask_removes_one_witness :
  TaskState.tasks (deleteTask sampleState "b") = [milk; groceries]
  /\ TaskState.tasks (deleteTask sampleState "b") !! 1%nat = Some groceries.
Proof.
  assert (Hnodup : NoDup (Task.id <$> TaskState.tasks sampleState)).
  { unfold sampleState. cbn.
    repeat (apply NoDup_cons; split);
      [rewrite !elem_of_cons, elem_of_nil; intros [H|[H|[]]]; discriminate H
      |rewrite !elem_of_cons, elem_of_nil; intros [H|[]]; discriminate H
      |apply not_elem_of_nil
      |apply NoDup_nil_2]. }
  destruct (deleteTask_removes_one sampleState 1 eggs Hnodup eq_refl)
    as (H1 & _ & _ & _ & H2 & _).
  split; [exact H1 | exact (H2 1%nat (le_n 1))].
Defined.

(** ** The actions of the executor on the item they resolve *)

(** X4. [delete_task] on an identifier that resolves to an item returns
    without touching the world, with the summary [Deleted "<title>"] and the
    filter and message as before; no item with the id of the resolved item
    is left (so the resolved item is gone) and every item with another id
    stays.  With unique ids the list is exactly one item shorter. *)
Theorem delete_task_deletes
    (state : TaskState) (input : Input) (identifier : string) (task : Task)
    (w : World) :
  Input.taskIdentifier input = Some identifier ->
  findTaskByIdentifier (TaskState.tasks state) identifier = Some task ->
  processToolCall "delete_task" input state w
  = Return (ToolResult.mk (deleteTask state (Task.id task))
                          (Some ("Deleted " +:+ Js.quoted (Task.title task)))) w
  /\ (task ∉ TaskState.tasks (deleteTask state (Task.id task)))
  /\ (forall u, u ∈ TaskState.tasks (deleteTask state (Task.id task))
                <-> u ∈ TaskState.tasks state /\ Task.id u <> Task.id task)
  /\ TaskState.filter (deleteTask state (Task.id task)) = TaskState.filter state
  /\ TaskState.agentMessage (deleteTask state (Task.id task))
     = TaskState.agentMessage state
  /\ (NoDup (Task.id <$> TaskState.tasks state) ->
      S (length (TaskState.tasks (deleteTask state (Task.id task))))
      = length (TaskState.tasks state)).
Proof.
  intros Hid Hfind. split.
  { rewrite processToolCall_delete_task. unfold bind. rewrite Hid.
    cbn [defined ret]. by rewrite Hfind. }
  split; [rewrite deleteTask_elem; by intros [_ H]|].
  split; [intros u; apply deleteTask_elem|]. split; [done|]. split; [done|].
  intros Hnodup.
  apply findTaskByIdentifier_elem, list_elem_of_lookup in Hfind as [i Hi].
  pose proof (lookup_lt_Some _ _ _ Hi) as Hlt.
  rewrite (deleteTask_at state i task Hnodup Hi).
  rewrite length_app, length_take, length_drop. lia.
Qed.

Lemma delete_task_deletes_witness :
  processToolCall "delete_task" (taskRequest "delete_task" "last").2 sampleState
                  sampleWorld
  = Return (ToolResult.mk (TaskState.mk [milk; eggs] None None)
                          (Some ("Deleted " +:+ Js.quoted "2 groceries")))
           sampleWorld.
Proof.
  destruct (delete_task_deletes sampleState (taskRequest "delete_task" "last").2
              "last" groceries sampleWorld eq_refl eq_refl) as [H _].
  exact H.
Defined.

(** X5. [complete_task] on an identifier that resolves to an item that is
    not completed returns with the summary [Completed "<title>"]; the
    resolved item, at its position, is now completed and stamped, every item
    with another id is as before, and the length, the filter and the
    previous message of the store are kept. *)
Theorem complete_task_completes
    (state : TaskState) (input : Input) (identifier : string) (task : Task)
    (w : World) :
  Input.taskIdentifier input = Some identifier ->
  findTaskByIdentifier (TaskState.tasks state) identifier = Some task ->
  Task.completed task = false ->
  exists tasks' w',
    processToolCall "complete_task" input state w
    = Return (ToolResult.mk
                (TaskState.mk tasks' (TaskState.filter state)
                              (TaskState.agentMessage state))
                (Some ("Completed " +:+ Js.quoted (Task.title task)))) w'
    /\ later w w'
    /\ length tasks' = length (TaskState.tasks state)
    /\ (exists i stamp,
          TaskState.tasks state !! i = Some task
          /\ tasks' !! i = Some (markComplete stamp task))
    /\ (forall i t, TaskState.tasks state !! i = Some t ->
                    Task.id t <> Task.id task -> tasks' !! i = Some t).
Proof.
  intros Hid Hfind Hactive.
  destruct (completeTask_spec state (Task.id task) w) as (l' & w' & Hrun & Hlater & Hall).
  exists l', w'. split.
  { rewrite processToolCall_complete_task. unfold bind at 1. rewrite Hid.
    cbn [defined ret]. rewrite Hfind, Hactive. unfold bind. by rewrite Hrun. }
  split; [done|]. split; [symmetry; by eapply Forall2_length|]. split.
  - apply findTaskByIdentifier_elem, list_elem_of_lookup in Hfind as [i Hi].
    destruct (Forall2_lookup_l _ _ _ _ _ Hall Hi) as (t' & Hi' & Ht).
    unfold completed_by in Ht. rewrite bool_decide_eq_true_2 in Ht by done.
    destruct Ht as (k & _ & ->). by eexists i, _.
  - intros i t Hi Hne.
    destruct (Forall2_lookup_l _ _ _ _ _ Hall Hi) as (t' & Hi' & Ht).
    unfold completed_by in Ht. rewrite bool_decide_eq_false_2 in Ht by done.
    by subst t'.
Qed.

Lemma complete_task_completes_witness :
  exists tasks' w',
    processToolCall "complete_task" (taskRequest "complete_task" "milk").2
                    sampleState sampleWorld
    = Return (ToolResult.mk (TaskState.mk tasks' None None)
                            (Some ("Completed " +:+ Js.quoted "Buy milk"))) w'
    /\ length tasks' = 3%nat.
Proof.
  destruct (complete_task_completes sampleState
              (taskRequest "complete_task" "milk").2 "milk" milk sampleWorld
              eq_refl eq_refl eq_refl)
    as (tasks' & w' & Hcall & _ & Hlen & _).
  exists tasks', w'. split; [exact Hcall | exact Hlen].
Defined.

(** X6. [uncomplete_task] on an identifier that resolves to a completed
    item returns without touching the world, with the summary
    [Marked "<title>" as active]; the resolved item, at its position, is
    active again with no [completedAt], and every item with another id is as
    before.  On an item that is already active the items and the filter are
    as before, there is no summary, and the message is
    ["<title>" is already active]. *)
Theorem uncomplete_task_reactivates
    (state : TaskState) (input : Input) (identifier : string) (task : Task)
    (w : World) :
  Input.taskIdentifier input = Some identifier ->
  findTaskByIdentifier (TaskState.tasks state) identifier = Some task ->
  (Task.completed task = true ->
   processToolCall "uncomplete_task" input state w
   = Return (ToolResult.mk (uncompleteTask state (Task.id task))
               (Some ("Marked " +:+ Js.quoted (Task.title task) +:+ " as active"))) w
   /\ (exists i, TaskState.tasks state !! i = Some task
                 /\ TaskState.tasks (uncompleteTask state (Task.id task)) !! i
                    = Some (markActive task))
   /\ (forall i t, TaskState.tasks state !! i = Some t ->
                   Task.id t <> Task.id task ->
                   TaskState.tasks (uncompleteTask state (Task.id task)) !! i = Some t))
  /\ (Task.completed task = false ->
      processToolCall "uncomplete_task" input state w
      = Return (ToolResult.mk
                  (withMessage state
                     (Js.quoted (Task.title task) +:+ " is already active")) None) w).
Proof.
  intros Hid Hfind. split; intros Hdone.
  - assert (Hlookup : forall i t,
              TaskState.tasks state !! i = Some t ->
              TaskState.tasks (uncompleteTask state (Task.id task)) !! i
              = Some (if bool_decide (Task.id t = Task.id task)
                      then markActive t else t)).
    { intros i t Hi. unfold uncompleteTask. cbn [TaskState.tasks].
      by rewrite list_lookup_fmap, Hi. }
    split.
    { rewrite processToolCall_uncomplete_task. unfold bind. rewrite Hid.
      cbn [defined ret]. by rewrite Hfind, Hdone. }
    split.
    + apply findTaskByIdentifier_elem, list_elem_of_lookup in Hfind as [i Hi].
      exists i. split; [done|]. by rewrite (Hlookup i task Hi), bool_decide_eq_true_2.
    + intros i t Hi Hne. by rewrite (Hlookup i t Hi), bool_decide_eq_false_2.
  - by apply (uncomplete_task_already_active input identifier).
Qed.

Lemma uncomplete_task_reactivates_witness :
  processToolCall "uncomplete_task" (taskRequest "uncomplete_task" "2").2
                  sampleState sampleWorld
  = Return (ToolResult.mk
              (TaskState.mk [milk; markActive eggs; groceries] None None)
              (Some ("Marked " +:+ Js.quoted "Boil eggs" +:+ " as active")))
           sampleWorld.
Proof.
  destruct (uncomplete_task_reactivates sampleState
              (taskRequest "uncomplete_task" "2").2 "2" eggs sampleWorld
              eq_refl eq_refl) as [H _].
  destruct (H eq_refl) as [Hcall _]. exact Hcall.
Defined.

(** ** What the actions never change *)

Lemma identity_completed_by taskId w w' l l' :
  Forall2 (completed_by taskId w w') l l' -> identity <$> l' = identity <$> l.
Proof.
  induction 1 as [|t t' l l' Ht _ IH]; [done|].
  rewrite !fmap_cons, IH. f_equal.
  unfold completed_by in Ht. case_bool_decide.
  - by destruct Ht as (k & _ & ->).
  - by subst t'.
Qed.

Lemma identity_uncompleteTask state taskId :
  identity <$> TaskState.tasks (uncompleteTask state taskId)
  = identity <$> TaskState.tasks state.
Proof.
  unfold uncompleteTask. cbn [TaskState.tasks].
  rewrite <- list_fmap_compose. apply list_fmap_ext.
  intros i t _. cbn. by case_bool_decide.
Qed.

(** What an action of the executor that returns does to the list of items. *)
Lemma processToolCall_items
    (toolName : string) (input : Input) (state : TaskState) (w : World)
    (result : ToolResult) (w' : World) :
  processToolCall toolName input state w = Return result w' ->
  later w w'
  /\ ((exists t,
         toolName = "add_task"
         /\ TaskState.tasks (ToolResult.state result) = (TaskState.tasks state ++ [t])%list
         /\ Task.id t = uuids w (uuid_calls w)
         /\ Task.completed t = false /\ Task.completedAt t = None
         /\ uuid_calls w' = S (uuid_calls w))
      \/ (toolName = "delete_task"
          /\ TaskState.tasks (ToolResult.state result) `sublist_of` TaskState.tasks state)
      \/ identity <$> TaskState.tasks (ToolResult.state result)
         = identity <$> TaskState.tasks state).
Proof.
  destruct (toolName_cases toolName) as [->|[->|[->|[->|[->|Hother]]]]].
  - rewrite processToolCall_add_task. unfold bind.
    destruct (Input.title input); [|done]. cbn [defined ret].
    rewrite createTask_Return. intros [= <- <-].
    split; [unfold later; cbn; repeat split; lia|].
    left. eexists. repeat split.
  - rewrite processToolCall_complete_task. unfold bind at 1.
    destruct (Input.taskIdentifier input) as [identifier|]; [|done].
    cbn [defined ret].
    destruct (findTaskByIdentifier _ _) as [task|];
      [|intros [= <- <-]; split; [apply later_refl | by right; right]].
    destruct (Task.completed task);
      [intros [= <- <-]; split; [apply later_refl | by right; right]|].
    destruct (completeTask_spec state (Task.id task) w)
      as (l' & w1 & Hrun & Hlater & Hall).
    unfold bind. rewrite Hrun. intros [= <- <-]. split; [done|]. right; right.
    cbn [ToolResult.state TaskState.tasks]. by eapply identity_completed_by.
  - rewrite processToolCall_uncomplete_task. unfold bind.
    destruct (Input.taskIdentifier input) as [identifier|]; [|done].
    cbn [defined ret].
    destruct (findTaskByIdentifier _ _) as [task|];
      [|intros [= <- <-]; split; [apply later_refl | by right; right]].
    destruct (negb (Task.completed task)); intros [= <- <-];
      (split; [apply later_refl | right; right]); [done|].
    apply identity_uncompleteTask.
  - rewrite processToolCall_delete_task. unfold bind.
    destruct (Input.taskIdentifier input) as [identifier|]; [|done].
    cbn [defined ret].
    destruct (findTaskByIdentifier _ _) as [task|]; intros [= <- <-];
      (split; [apply later_refl|]); [|by right; right].
    right; left. split; [done|]. apply sublist_filter.
  - rewrite processToolCall_filter_tasks. cbv zeta. intros [= <- <-].
    split; [apply later_refl | by right; right].
  - rewrite (processToolCall_unknown _ _ _ Hother). intros [= <- <-].
    split; [apply later_refl | by right; right].
Qed.



Lemma ids_identity l l' : identity <$> l' = identity <$> l -> ids l' = ids l.
Proof.
  intros H. unfold ids.
  change (Task.id <$> l') with ((fun x => x.1.1.1.1) ∘ identity <$> l').
  change (Task.id <$> l) with ((fun x => x.1.1.1.1) ∘ identity <$> l).
  by rewrite !list_fmap_compose, H.
Qed.

Lemma fresh_source_step toolName input state w result w' :
  fresh_source w (TaskState.tasks state) ->
  processToolCall toolName input state w = Return result w' ->
  fresh_source w' (TaskState.tasks (ToolResult.state result)).
Proof.
  intros (Hnodup & Hfresh & Hinj) Hcall.
  destruct (processToolCall_items _ _ _ _ _ _ Hcall)
    as [(Hu & _ & _ & Hcalls & _) Hcases].
  assert (Hsub : forall l', ids l' `sublist_of` ids (TaskState.tasks state) ->
                            fresh_source w' l').
  { intros l' Hl'. split; [by eapply sublist_NoDup|]. split.
    - intros k Hk Hin. apply (Hfresh k); [lia|].
      rewrite Hu in Hin. by eapply elem_of_sublist.
    - intros j k Hj Hk. rewrite Hu. apply Hinj; lia. }
  destruct Hcases as [(t & _ & -> & Hid & _ & _ & Hnext)|[[_ Hdel]|Hsame]].
  - unfold fresh_source, ids in *. rewrite fmap_app. cbn [fmap list_fmap].
    rewrite Hid, Hnext, Hu. split; [|split].
    + apply NoDup_app. split; [done|]. split; [|apply NoDup_singleton].
      intros x Hx Heq%list_elem_of_singleton. subst x.
      by apply (Hfresh (uuid_calls w)).
    + intros k Hk [Hin|Heq%list_elem_of_singleton]%elem_of_app.
      * apply (Hfresh k); [lia | done].
      * assert (k = uuid_calls w) by (apply Hinj; [lia | lia | done]). lia.
    + intros j k Hj Hk. apply Hinj; lia.
  - apply Hsub. by apply fmap_sublist.
  - apply Hsub. by rewrite (ids_identity _ _ Hsame).
Qed.

(** X8. Ids stay unique through a whole reply: when the ids of the store
    are distinct and the identifier source, from now on, returns no id of the
    store and no id twice, the store a reply leaves has distinct ids, and
    the source is still good for it. *)
Theorem callAnthropicAPI_unique_ids
    (content : list ContentBlock) (state : TaskState) (w : World)
    (final : TaskState) (w' : World) :
  fresh_source w (TaskState.tasks state) ->
  callAnthropicAPI content state w = Return final w' ->
  NoDup (ids (TaskState.tasks final)) /\ fresh_source w' (TaskState.tasks final).
Proof.
  intros Hfresh Hcall.
  assert (H : fresh_source w' (TaskState.tasks final)); [|split; [apply H | done]].
  destruct (callAnthropicAPI_store _ _ _ _ _ Hcall) as (store & sums & Hrun & -> & _).
  clear Hcall. revert state w Hfresh store sums Hrun.
  induction (requests_of content) as [|[toolName input] rest IH];
    intros state w Hfresh store sums.
  - by intros [= <- _ <-].
  - cbn [applyBatch_spec fst snd]. unfold bind at 1.
    destruct (processToolCall toolName input state w) as [result w1|e] eqn:Hstep;
      [|done].
    unfold bind.
    destruct (applyBatch_spec (ToolResult.state result) rest w1)
      as [[store' sums'] w2|e] eqn:Hrest; [|done].
    intros [= <- _ <-].
    eapply IH; [by eapply fresh_source_step | exact Hrest].
Qed.

Lemma numeral_inj j k : numeral j = numeral k -> j = k.
Proof.
  unfold numeral. intros H.
  apply (f_equal NilEmpty.uint_of_string) in H.
  rewrite !NilEmpty.usu in H. injection H as H.
  by apply DecimalNat.Unsigned.to_uint_inj.
Qed.

Lemma callAnthropicAPI_unique_ids_witness :
  fresh_source sampleWorld []
  /\ forall final w',
       callAnthropicAPI (toolUses milk_dog_batch) createInitialState sampleWorld
       = Return final w' ->
       NoDup (ids (TaskState.tasks final)).
Proof.
  assert (Hfresh : fresh_source sampleWorld []).
  { split; [apply NoDup_nil_2|]. split; [intros k _; apply not_elem_of_nil|].
    intros j k _ _ H. cbn in H. injection H as H. by apply numeral_inj. }
  split; [exact Hfresh|]. intros final w' Hcall.
  destruct (callAnthropicAPI_unique_ids (toolUses milk_dog_batch)
              createInitialState sampleWorld final w' Hfresh Hcall) as [H _].
  exact H.
Defined.

(** ** Filters *)

Lemma split_no_sep sep s : has_char sep s = false -> Js.split sep s = [s].
Proof.
  induction s as [|c s IH]; [done|]. cbn [has_char Js.split].
  rewrite orb_false_iff. intros [Hc Hs]. rewrite Hc. by rewrite (IH Hs).
Qed.

Lemma lower_char_idem c : Js.lower_char (Js.lower_char c) = Js.lower_char c.
Proof. each_char c. Qed.

Lemma toLowerCase_idem s : Js.toLowerCase (Js.toLowerCase s) = Js.toLowerCase s.
Proof.
  induction s as [|c s IH]; [done|]. cbn [Js.toLowerCase].
  by rewrite lower_char_idem, IH.
Qed.

Lemma colon_lower_char c :
  bool_decide (Js.lower_char c = ":"%char) = bool_decide (c = ":"%char).
Proof. each_char c. Qed.

Lemma has_colon_toLowerCase s : has_char ":" (Js.toLowerCase s) = has_char ":" s.
Proof.
  induction s as [|c s IH]; [done|]. cbn [Js.toLowerCase has_char].
  by rewrite colon_lower_char, IH.
Qed.

Lemma filter_singleton {A} (P : A -> Prop) `{!forall x, Decision (P x)} (x : A) :
  base.filter P [x] = [x] <-> P x.
Proof.
  rewrite filter_cons, filter_nil. destruct (decide (P x)); [done|].
  split; [discriminate | done].
Qed.


(** Every filter is a test on single items. *)
Lemma filterTasks_predicate filter :
  exists p : Task -> bool,
    forall tasks, filterTasks tasks filter = base.filter (fun t => p t = true) tasks.
Proof.
  assert (Hall : exists p : Task -> bool,
            forall tasks : list Task, tasks = base.filter (fun t => p t = true) tasks).
  { exists (fun _ => true). intros tasks. symmetry.
    by apply filter_all, Forall_forall. }
  assert (Hsome : forall (P : Task -> Prop) `{!forall t, Decision (P t)},
            exists p : Task -> bool,
              forall tasks : list Task,
                base.filter P tasks = base.filter (fun t => p t = true) tasks).
  { intros P HP. exists (fun t => bool_decide (P t)). intros tasks.
    apply list_filter_iff. intros t. by rewrite bool_decide_eq_true. }
  unfold filterTasks.
  destruct (negb (Js.truthy filter) || bool_decide (filter = Some "all")); [done|].
  destruct (Js.split ":" (default "" filter)) as [|filterType rest]; [done|].
  cbv zeta. repeat case_bool_decide; try done; apply Hsome.
Qed.

(** Filtering is item by item. *)
Lemma filterTasks_shows tasks filter :
  filterTasks tasks filter = base.filter (shows filter) tasks.
Proof.
  destruct (filterTasks_predicate filter) as [p Hp]. rewrite Hp.
  apply list_filter_iff. intros t. unfold shows. by rewrite Hp, filter_singleton.
Qed.

(** X9. Filtering is item by item and does not depend on the rest of the
    list, so it distributes over concatenation; filtering twice with the
    same filter is filtering once, and two filters can be applied in either
    order. *)
Theorem filterTasks_idempotent_commutes
    (tasks more : list Task) (f g : option string) :
  filterTasks (filterTasks tasks f) f = filterTasks tasks f
  /\ filterTasks (filterTasks tasks f) g = filterTasks (filterTasks tasks g) f
  /\ filterTasks (tasks ++ more) f = (filterTasks tasks f ++ filterTasks more f)%list
  /\ (forall t, t ∈ filterTasks tasks f <-> t ∈ tasks /\ shows f t).
Proof.
  rewrite !filterTasks_shows. split; [|split; [|split]].
  - rewrite list_filter_filter. apply list_filter_iff. tauto.
  - rewrite !list_filter_filter. apply list_filter_iff. tauto.
  - apply filter_app.
  - intros t. rewrite list_elem_of_filter. tauto.
Qed.

Lemma key_value_filter tasks key value :
  has_char ":" key = false -> has_char ":" value = false ->
  filterTasks tasks (Some (key +:+ ":" +:+ value))
  = filterTasks tasks (Some (Js.toLowerCase key +:+ ":" +:+ value))
  /\ Js.split ":" (key +:+ ":" +:+ value) = [key; value]
  /\ Js.truthy (Some (key +:+ ":" +:+ value)) = true
  /\ key +:+ ":" +:+ value <> "all".
Proof.
  intros Hkey Hvalue.
  assert (Hsplit : forall k, has_char ":" k = false ->
            Js.split ":" (k +:+ ":" +:+ value) = [k; value]).
  { intros k Hk. change (k +:+ ":" +:+ value) with (k +:+ String ":" value).
    rewrite (split_key_value ":" k value Hk), (split_no_sep _ _ Hvalue). done. }
  assert (Htruthy : forall k, Js.truthy (Some (k +:+ ":" +:+ value)) = true)
    by (by intros []).
  assert (Hall : forall k, has_char ":" k = false -> k +:+ ":" +:+ value <> "all").
  { intros k Hk E. pose proof (Hsplit k Hk) as H. rewrite E in H. discriminate H. }
  split; [|split; [by apply Hsplit | split; [apply Htruthy | by apply Hall]]].
  unfold filterTasks.
  rewrite !Htruthy, !bool_decide_eq_false_2
    by (intros [= E]; revert E; apply Hall; by rewrite ?has_colon_toLowerCase).
  cbn [negb orb default from_option]. unfold id.
  rewrite !Hsplit by (by rewrite ?has_colon_toLowerCase).
  cbv zeta. by rewrite toLowerCase_idem.
Qed.



Lemma filterTasks_active tasks :
  filterTasks tasks (Some "active")
  = base.filter (fun t => Task.completed t = false) tasks.
Proof. reflexivity. Qed.

Lemma filterTasks_completed_value tasks value :
  has_char ":" value = false ->
  filterTasks tasks (Some ("completed:" +:+ value))
  = base.filter (fun t => Task.completed t = bool_decide (value = "true")) tasks.
Proof.
  intros Hvalue.
  destruct (key_value_filter tasks "completed" value eq_refl Hvalue)
    as (_ & Hsplit & Htruthy & Hall).
  change ("completed:" +:+ value) with ("completed" +:+ ":" +:+ value).
  unfold filterTasks. rewrite Htruthy, bool_decide_eq_false_2 by congruence.
  cbn [negb orb default from_option]. unfold id. rewrite Hsplit. cbv zeta.
  cbn [head]. change (Js.toLowerCase "completed") with "completed".
  rewrite (bool_decide_eq_false_2 ("completed" = "priority")) by discriminate.
  rewrite (bool_decide_eq_true_2 ("completed" = "completed")) by done.
  apply list_filter_iff. intros t.
  assert (bool_decide (Some value = Some "true") = bool_decide (value = "true")) as ->;
    [|done].
  apply bool_decide_ext. split; congruence.
Qed.

(** X11. The completion filters.  [completed:<value>] shows the completed
    items when the value is exactly [true] and the active items for every
    other value, also when the value is missing; [active] shows the active
    items whatever follows it.  The completed and the active items together
    are the whole list, each item on one side only. *)
Theorem filterTasks_completed (tasks : list Task) (value : string) :
  has_char ":" value = false ->
  filterTasks tasks (Some ("completed:" +:+ value))
  = (if bool_decide (value = "true")
     then base.filter (fun t => Task.completed t = true) tasks
     else base.filter (fun t => Task.completed t = false) tasks)
  /\ filterTasks tasks (Some "completed")
     = base.filter (fun t => Task.completed t = false) tasks
  /\ filterTasks tasks (Some ("active:" +:+ value))
     = base.filter (fun t => Task.completed t = false) tasks
  /\ filterTasks tasks (Some "completed:true") ++ filterTasks tasks (Some "completed:false")
     ≡ₚ tasks
  /\ (length (filterTasks tasks (Some "completed:true"))
      + length (filterTasks tasks (Some "completed:false")) = length tasks)%nat
  /\ (forall t, ~ (t ∈ filterTasks tasks (Some "completed:true")
                   /\ t ∈ filterTasks tasks (Some "completed:false"))).
Proof.
  intros Hvalue.
  assert (Hperm : filterTasks tasks (Some "completed:true")
                  ++ filterTasks tasks (Some "completed:false") ≡ₚ tasks).
  { change (base.filter (fun t => Task.completed t = true) tasks
            ++ base.filter (fun t => Task.completed t = false) tasks ≡ₚ tasks).
    assert (base.filter (fun t => Task.completed t = false) tasks
            = base.filter (fun t => ~ Task.completed t = true) tasks) as ->.
    { apply list_filter_iff. intros t. by destruct (Task.completed t). }
    apply filter_app_complement. }
  split; [|split; [|split; [|split; [|split]]]].
  - rewrite filterTasks_completed_value by done. by case_bool_decide.
  - reflexivity.
  - destruct (key_value_filter tasks "active" value eq_refl Hvalue)
      as (_ & Hsplit & Htruthy & Hall).
    change ("active:" +:+ value) with ("active" +:+ ":" +:+ value).
    unfold filterTasks. rewrite Htruthy, bool_decide_eq_false_2 by congruence.
    cbn [negb orb default from_option]. unfold id. by rewrite Hsplit.
  - exact Hperm.
  - rewrite <- length_app. by rewrite Hperm.
  - intros t [H1 H2].
    change (t ∈ base.filter (fun t => Task.completed t = true) tasks) in H1.
    change (t ∈ base.filter (fun t => Task.completed t = false) tasks) in H2.
    apply list_elem_of_filter in H1 as [H1 _].
    apply list_elem_of_filter in H2 as [H2 _]. congruence.
Qed.

Lemma filterTasks_completed_witness :
  filterTasks [milk; eggs; groceries] (Some "completed:yes") = [milk; groceries]
  /\ filterTasks [milk; eggs; groceries] (Some "completed:true") = [eggs].
Proof.
  destruct (filterTasks_completed [milk; eggs; groceries] "yes" eq_refl)
    as (H1 & _).
  destruct (filterTasks_completed [milk; eggs; groceries] "true" eq_refl)
    as (H2 & _).
  split; [exact H1 | exact H2].
Defined.

(** ** Statistics *)

(** X12. The statistics are consistent with each other and with the
    filters: the total is the number of items and is the sum of the active
    and the completed count; the urgent count is at most the active count;
    the active and completed counts are the lengths of the lists the
    [completed:false] and [completed:true] filters show, and the urgent
    count is the number of active items the [priority:high] filter shows. *)
Theorem calculateStats_consistent (tasks : list Task) :
  TaskStats.total (calculateStats tasks) = length tasks
  /\ TaskStats.total (calculateStats tasks)
     = (TaskStats.active (calculateStats tasks)
        + TaskStats.completed (calculateStats tasks))%nat
  /\ (TaskStats.highPriority (calculateStats tasks)
      <= TaskStats.active (calculateStats tasks))%nat
  /\ TaskStats.active (calculateStats tasks)
     = length (filterTasks tasks (Some "completed:false"))
  /\ TaskStats.completed (calculateStats tasks)
     = length (filterTasks tasks (Some "completed:true"))
  /\ TaskStats.highPriority (calculateStats tasks)
     = length (filterTasks (filterTasks tasks (Some "priority:high")) (Some "active")).
Proof.
  unfold calculateStats. cbn [TaskStats.total TaskStats.active TaskStats.completed
                              TaskStats.highPriority].
  split; [done|]. split; [|split; [|split; [done|split; [done|]]]].
  - induction tasks as [|t tasks IH]; [done|].
    rewrite !filter_cons. cbn [length].
    destruct (Task.completed t); repeat case_decide; try done; cbn [length]; lia.
  - induction tasks as [|t tasks IH]; [done|].
    rewrite !filter_cons.
    repeat case_decide; cbn [length]; try lia.
    tauto.
  - change (filterTasks tasks (Some "priority:high"))
      with (base.filter (fun t => Some (priority_string (Task.priority t)) = Some "high")
                        tasks).
    rewrite filterTasks_active, list_filter_filter. f_equal.
    apply list_filter_iff. intros t. split.
    + intros [-> ?]. done.
    + intros [? [= ?]]. done.
Qed.

(** ** Building filters and describing them *)

Lemma priority_string_inj p q : priority_string p = priority_string q -> p = q.
Proof. by destruct p, q. Qed.

Lemma priority_filter tasks key value :
  Js.toLowerCase key = "priority" ->
  has_char ":" key = false -> has_char ":" value = false ->
  filterTasks tasks (Some (key +:+ ":" +:+ value))
  = base.filter (fun t => priority_string (Task.priority t) = value) tasks.
Proof.
  intros Hkey Hcolon Hvalue.
  destruct (key_value_filter tasks key value Hcolon Hvalue)
    as (_ & Hsplit & Htruthy & Hall).
  unfold filterTasks. rewrite Htruthy, bool_decide_eq_false_2 by congruence.
  cbn [negb orb default from_option]. unfold id. rewrite Hsplit. cbv zeta.
  rewrite Hkey. cbn [head]. rewrite bool_decide_eq_true_2 by done.
  apply list_filter_iff. intros t. split; congruence.
Qed.

Lemma createFilter_value filterType value :
  value <> EmptyString ->
  filterType = "priority" \/ filterType = "category" ->
  createFilter (Some filterType) (Some value)
  = Some (filterType +:+ ":" +:+ Js.toLowerCase value).
Proof.
  intros Hne [-> | ->]; unfold createFilter;
    repeat (rewrite bool_decide_eq_false_2 by discriminate);
    rewrite bool_decide_eq_true_2 by done; by destruct value.
Qed.

(** X13. A filter built by [createFilter] selects what was asked for.  The
    value is lower-cased, so a priority spelled in any case selects the
    items of that priority, and a category selects the items whose category
    is the same up to case; [active] and [completed] select the active and
    the completed items, whatever value comes with them; [all], and a
    priority or category without a value, select everything. *)
Theorem createFilter_filterTasks
    (tasks : list Task) (value : string) (p : Priority) (category : string)
    (other : option string) :
  Js.toLowerCase value = priority_string p ->
  category <> EmptyString -> has_char ":" category = false ->
  filterTasks tasks (createFilter (Some "priority") (Some value))
  = base.filter (fun t => Task.priority t = p) tasks
  /\ filterTasks tasks (createFilter (Some "category") (Some category))
     = base.filter
         (fun t => Js.toLowerCase (Task.category t) = Js.toLowerCase category) tasks
  /\ filterTasks tasks (createFilter (Some "active") other)
     = base.filter (fun t => Task.completed t = false) tasks
  /\ filterTasks tasks (createFilter (Some "completed") other)
     = base.filter (fun t => Task.completed t = true) tasks
  /\ filterTasks tasks (createFilter (Some "all") other) = tasks
  /\ filterTasks tasks (createFilter (Some "priority") None) = tasks
  /\ filterTasks tasks (createFilter (Some "category") (Some "")) = tasks.
Proof.
  intros Hvalue Hcat Hcolon.
  split; [|split; [|split; [|split; [|split; [|split]]]]]; try reflexivity.
  - rewrite createFilter_value; [|by intros ->; destruct p|by left].
    rewrite Hvalue.
    rewrite priority_filter by (done || by destruct p).
    apply list_filter_iff. intros t. split; [apply priority_string_inj | congruence].
  - rewrite createFilter_value by (done || by right).
    destruct (key_value_filter tasks "category" (Js.toLowerCase category))
      as (_ & Hsplit & Htruthy & Hall); [done|by rewrite has_colon_toLowerCase|].
    unfold filterTasks. rewrite Htruthy, bool_decide_eq_false_2 by congruence.
    cbn [negb orb default from_option]. unfold id. rewrite Hsplit. cbv zeta.
    cbn [head fmap option_fmap option_map]. rewrite toLowerCase_idem.
    change (Js.toLowerCase "category") with "category".
    repeat (rewrite (bool_decide_eq_false_2 ("category" = _)) by discriminate).
    rewrite (bool_decide_eq_true_2 ("category" = "category")) by done.
    apply list_filter_iff. intros t. split; congruence.
Qed.

Lemma createFilter_filterTasks_witness :
  filterTasks [milk; eggs] (createFilter (Some "priority") (Some "MEDIUM"))
  = [milk; eggs]
  /\ filterTasks [milk; eggs] (createFilter (Some "category") (Some "Work")) = [].
Proof.
  destruct (createFilter_filterTasks [milk; eggs] "MEDIUM" medium "Work" None
              eq_refl ltac:(discriminate) eq_refl) as (H1 & H2 & _).
  split; [exact H1 | exact H2].
Defined.

(** X14. The label of a filter built by [createFilter]: [Active Tasks] and
    [Completed Tasks] for the two completion filters, [All Tasks] when no
    filter is built, and for a priority or a category the lower-cased value
    with its first character upper-cased, followed by [ Priority] or
    preceded by [Category: ]. *)
Theorem getFilterDescription_createFilter
    (toUpperCase : string -> string) (filterType value : string)
    (other : option string) :
  value <> EmptyString -> has_char ":" value = false ->
  filterType = "priority" \/ filterType = "category" ->
  getFilterDescription toUpperCase (createFilter (Some filterType) (Some value))
  = (if bool_decide (filterType = "priority")
     then (toUpperCase (charAt0 (Js.toLowerCase value))
           +:+ slice1 (Js.toLowerCase value)) +:+ " Priority"
     else "Category: " +:+ toUpperCase (charAt0 (Js.toLowerCase value))
          +:+ slice1 (Js.toLowerCase value))
  /\ getFilterDescription toUpperCase (createFilter (Some "active") other)
     = "Active Tasks"
  /\ getFilterDescription toUpperCase (createFilter (Some "completed") other)
     = "Completed Tasks"
  /\ getFilterDescription toUpperCase (createFilter (Some "all") other)
     = "All Tasks"
  /\ getFilterDescription toUpperCase (createFilter (Some filterType) None)
     = "All Tasks".
Proof.
  intros Hne Hcolon Htype.
  split; [|split; [reflexivity|split; [reflexivity|split; [reflexivity|]]]].
  - rewrite createFilter_value by done.
    assert (Hsplit : Js.split ":" (filterType +:+ ":" +:+ Js.toLowerCase value)
                     = [filterType; Js.toLowerCase value]).
    { change (filterType +:+ ":" +:+ Js.toLowerCase value)
        with (filterType +:+ String ":" (Js.toLowerCase value)).
      rewrite split_key_value by (by destruct Htype as [-> | ->]).
      by rewrite split_no_sep by (by rewrite has_colon_toLowerCase). }
    unfold getFilterDescription.
    assert (Js.truthy (Some (filterType +:+ ":" +:+ Js.toLowerCase value)) = true)
      as -> by (by destruct Htype as [-> | ->]).
    cbn [negb default from_option]. unfold id. rewrite Hsplit. cbv zeta.
    cbn [head capitalized]. by destruct Htype as [-> | ->].
  - by destruct Htype as [-> | ->].
Qed.

Lemma getFilterDescription_createFilter_witness :
  getFilterDescription (fun s => if bool_decide (s = "h") then "H" else s)
    (createFilter (Some "priority") (Some "HIGH"))
  = "High Priority".
Proof.
  destruct (getFilterDescription_createFilter
              (fun s => if bool_decide (s = "h") then "H" else s)
              "priority" "HIGH" None ltac:(discriminate) eq_refl
              ltac:(by left)) as [H _].
  exact H.
Defined.

(** X15. Labels match the key exactly: a filter whose key -- the text
    before the first colon -- is none of [priority], [completed], [category]
    is labelled [All Tasks].  [filterTasks] lower-cases the key and also
    knows [active], so such a filter can still hide items: [active] and
    [PRIORITY:high] do. *)
Theorem getFilterDescription_exact_key
    (toUpperCase : string -> string) (key value : string) (tasks : list Task) :
  has_char ":" key = false ->
  key ∉ ["priority"; "completed"; "category"] ->
  getFilterDescription toUpperCase (Some (key +:+ ":" +:+ value)) = "All Tasks"
  /\ getFilterDescription toUpperCase (Some key) = "All Tasks"
  /\ getFilterDescription toUpperCase (Some "active") = "All Tasks"
  /\ filterTasks tasks (Some "active")
     = base.filter (fun t => Task.completed t = false) tasks
  /\ getFilterDescription toUpperCase (Some "PRIORITY:high") = "All Tasks"
  /\ filterTasks tasks (Some "PRIORITY:high")
     = base.filter (fun t => Task.priority t = high) tasks.
Proof.
  intros Hcolon Hkey. rewrite !elem_of_cons, elem_of_nil in Hkey.
  split; [|split; [|split; [reflexivity|split; [reflexivity|split; [reflexivity|]]]]].
  - unfold getFilterDescription.
    assert (Js.truthy (Some (key +:+ ":" +:+ value)) = true) as -> by (by destruct key).
    cbn [negb default from_option]. unfold id.
    change (key +:+ ":" +:+ value) with (key +:+ String ":" value).
    rewrite split_key_value by done. cbv zeta.
    repeat case_bool_decide; try done; exfalso; apply Hkey; auto.
  - unfold getFilterDescription. destruct (Js.truthy (Some key)); [|done].
    cbn [negb default from_option]. unfold id.
    rewrite split_no_sep by done. cbv zeta.
    repeat case_bool_decide; try done; exfalso; apply Hkey; auto.
  - change "PRIORITY:high" with ("PRIORITY" +:+ ":" +:+ "high").
    rewrite (priority_filter tasks "PRIORITY" "high") by done.
    apply list_filter_iff. intros t. by destruct (Task.priority t).
Qed.

Lemma getFilterDescription_exact_key_witness :
  getFilterDescription (fun s => s) (Some "Completed:true") = "All Tasks"
  /\ filterTasks [milk; eggs] (Some "Completed:true") = [eggs].
Proof.
  destruct (getFilterDescription_exact_key (fun s => s) "Completed" "true" [milk])
    as [H _]; [reflexivity| |].
  { rewrite !elem_of_cons, elem_of_nil. intros [E|[E|[E|[]]]]; discriminate E. }
  split; [exact H | reflexivity].
Defined.

(** ** Relative times *)

(** X16. [formatRelativeTime] by the time elapsed, in milliseconds, between
    a valid date and the clock: [just now] below one minute, also for a date
    in the future; whole minutes up to 59, whole hours up to 23, [yesterday]
    from 24 to 48 hours, whole days from 2 to 6, and the locale date from
    one week on.  The clock is read once, and the number printed is never
    negative. *)
Theorem formatRelativeTime_ranges
    (dateValue : string -> option Z) (toLocaleDateString : option Z -> string)
    (isoString : string) (d : Z) (w : World) :
  dateValue isoString = Some d ->
  let elapsed := clock w (clock_reads w) - d in
  formatRelativeTime dateValue toLocaleDateString isoString w
  = Return
      (if elapsed <? 60000 then "just now"
       else if elapsed <? 3600000
            then numeral (Z.to_nat (elapsed / 60000)) +:+ "m ago"
       else if elapsed <? 86400000
            then numeral (Z.to_nat (elapsed / 3600000)) +:+ "h ago"
       else if elapsed <? 172800000 then "yesterday"
       else if elapsed <? 604800000
            then numeral (Z.to_nat (elapsed / 86400000)) +:+ "d ago"
       else toLocaleDateString (Some d))
      (mkWorld (uuids w) (uuid_calls w) (clock w) (S (clock_reads w))
               (toISOString w))
  /\ (60000 <= elapsed < 3600000 -> 1 <= elapsed / 60000 <= 59)
  /\ (3600000 <= elapsed < 86400000 -> 1 <= elapsed / 3600000 <= 23)
  /\ (172800000 <= elapsed < 604800000 -> 2 <= elapsed / 86400000 <= 6).
Proof.
  intros Hd elapsed.
  split; [|repeat split; Z.div_mod_to_equations; lia].
  unfold formatRelativeTime, bind, newDate, ret, number_string.
  rewrite Hd. fold elapsed. f_equal.
  repeat match goal with
         | |- context [Z.ltb ?a ?b] => destruct (Z.ltb_spec a b)
         | |- context [Z.eqb ?a ?b] => destruct (Z.eqb_spec a b)
         end;
    try reflexivity; exfalso; Z.div_mod_to_equations; lia.
Qed.

Lemma formatRelativeTime_ranges_witness :
  formatRelativeTime (fun _ => Some (-7200500)) (fun _ => "1/1/1970") "T-2h"
                     sampleWorld
  = Return "2h ago" (mkWorld (uuids sampleWorld) 0 (clock sampleWorld) 1
                             (toISOString sampleWorld)).
Proof.
  destruct (formatRelativeTime_ranges (fun _ => Some (-7200500))
              (fun _ => "1/1/1970") "T-2h" (-7200500) sampleWorld eq_refl)
    as [H _].
  exact H.
Defined.

(** ** The text field *)

Lemma trimStart_first s c :
  first_char (Js.trimStart s) = Some c -> Js.is_whitespace c = false.
Proof.
  induction s as [|a s IH]; [done|]. cbn [Js.trimStart].
  destruct (Js.is_whitespace a) eqn:Ha; [done|]. by intros [= <-].
Qed.

Lemma trimEnd_first s c :
  first_char (Js.trimEnd s) = Some c -> first_char s = Some c.
Proof.
  destruct s as [|a s]; [done|]. cbn [Js.trimEnd].
  destruct (Js.trimEnd s); [by destruct (Js.is_whitespace a)|done].
Qed.

Lemma trimEnd_last s c :
  last_char (Js.trimEnd s) = Some c -> Js.is_whitespace c = false.
Proof.
  induction s as [|a s IH]; [done|]. cbn [Js.trimEnd].
  destruct (Js.trimEnd s) as [|b r].
  - destruct (Js.is_whitespace a) eqn:Ha; [done|]. by intros [= <-].
  - exact IH.
Qed.

Lemma trimmed_trim s : trimmed (Js.trim s).
Proof.
  split; intros c Hc.
  - eapply trimStart_first, trimEnd_first. exact Hc.
  - eapply trimEnd_last. exact Hc.
Qed.

(** X19. The text field submits exactly when no request is running and the
    text is not all white space.  What is submitted is the text without the
    white space around it: not empty, with no white space at either end;
    the field is then cleared.  Otherwise nothing is submitted and the field
    keeps its text. *)
Theorem handleSubmit_trims (value : string) (isLoading : bool) :
  match handleSubmit value isLoading with
  | (Some message, field) =>
      isLoading = false /\ blank value = false /\ field = ""
      /\ message <> "" /\ trimmed message
      /\ exists lead trail,
           blank lead = true /\ blank trail = true
           /\ value = lead +:+ message +:+ trail
  | (None, field) => (isLoading = true \/ blank value = true) /\ field = value
  end.
Proof.
  unfold handleSubmit. cbv zeta.
  destruct (Js.trim value) as [|c r] eqn:Htrim; cbn [Js.truthy negb orb].
  - split; [|done]. right. by apply trim_empty.
  - destruct isLoading; [split; [by left | done]|].
    split; [done|]. split.
    + destruct (blank value) eqn:Hb; [|done].
      apply trim_empty in Hb. congruence.
    + split; [done|]. split; [done|]. split.
      * rewrite <- Htrim. apply trimmed_trim.
      * rewrite <- Htrim. apply trim_spec.
Qed.

(** ** Choice of the provider *)

Lemma startsWith_prefix s p q :
  Js.startsWith s (p +:+ q) = true -> Js.startsWith s p = true.
Proof.
  revert s. induction p as [|a p IH]; intros s; [done|].
  change (String a p +:+ q) with (String a (p +:+ q)). cbn [Js.startsWith].
  destruct s as [|b s]; [done|].
  intros [Hab Hs]%andb_true_iff. rewrite Hab. cbn [andb]. by apply IH.
Qed.

Lemma validKey_Some prefix key :
  validKey prefix key = true <->
  exists k, key = Some k /\ Js.startsWith k prefix = true
            /\ (20 < String.length k)%nat.
Proof.
  unfold validKey. rewrite !andb_true_iff, bool_decide_eq_true. split.
  - intros [[Ht Hp] Hlen]. destruct key as [k|]; [|done]. by exists k.
  - intros (k & -> & Hp & Hlen). cbn [default from_option]. unfold id.
    repeat split; [|done..]. destruct k; [cbn in Hlen; lia | done].
Qed.

(** X17. Which provider is chosen: Anthropic exactly when the Anthropic
    variable, trimmed, starts with [sk-ant] and is longer than 20
    characters, whatever the OpenAI variable holds; otherwise OpenAI
    exactly when the OpenAI variable, trimmed, starts with [sk-] and is
    longer than 20 characters; otherwise the call fails, and the clients are
    never touched then.  A key the Anthropic test accepts is accepted by the
    OpenAI test too: set as the OpenAI variable, with no Anthropic
    variable, it selects OpenAI. *)
Theorem getAPIProvider_choice
    (ANTHROPIC_API_KEY OPENAI_API_KEY : option string) (clients : Clients) :
  let validAnthropic := validKey "sk-ant" (Js.trim <$> ANTHROPIC_API_KEY) in
  let validOpenAI := validKey "sk-" (Js.trim <$> OPENAI_API_KEY) in
  match getAPIProvider ANTHROPIC_API_KEY OPENAI_API_KEY clients with
  | inr (anthropic, client, clients') =>
      validAnthropic = true
      /\ Clients.anthropicClient clients' = Some client
      /\ Clients.openaiClient clients' = Clients.openaiClient clients
  | inr (openai, client, clients') =>
      validAnthropic = false /\ validOpenAI = true
      /\ Clients.openaiClient clients' = Some client
      /\ Clients.anthropicClient clients' = Clients.anthropicClient clients
  | inl message => validAnthropic = false /\ validOpenAI = false
  end
  /\ (validAnthropic = true ->
      exists client clients',
        getAPIProvider None ANTHROPIC_API_KEY clients
        = inr (openai, client, clients')).
Proof.
  cbv zeta. split.
  - unfold getAPIProvider. cbv zeta.
    destruct (validKey "sk-ant" _); [done|].
    by destruct (validKey "sk-" _).
  - intros Hvalid.
    assert (Hopen : validKey "sk-" (Js.trim <$> ANTHROPIC_API_KEY) = true).
    { revert Hvalid. rewrite !validKey_Some. intros (k & -> & Hp & Hlen).
      exists k. split; [done|]. split; [|done].
      by apply (startsWith_prefix k "sk-" "ant"). }
    unfold getAPIProvider. cbv zeta. rewrite Hopen.
    change (validKey "sk-ant" (Js.trim <$> None)) with false. cbv iota.
    by eexists _, _.
Qed.

(** X18. A client is created once.  When no client of the chosen provider
    exists, it is created with the trimmed key; when one exists it is
    returned as it is and the clients are unchanged, also when the key in the
    environment is now a different valid key. *)
Theorem getAPIProvider_client_once
    (ANTHROPIC_API_KEY OPENAI_API_KEY : option string) (clients : Clients)
    (provider : APIProvider) (client : string) (clients' : Clients) :
  getAPIProvider ANTHROPIC_API_KEY OPENAI_API_KEY clients
  = inr (provider, client, clients') ->
  let cached := match provider with
                | anthropic => Clients.anthropicClient clients
                | openai => Clients.openaiClient clients
                end in
  let key := match provider with
             | anthropic => ANTHROPIC_API_KEY
             | openai => OPENAI_API_KEY
             end in
  (cached = None -> Some client = Js.trim <$> key)
  /\ (forall c, cached = Some c -> client = c /\ clients' = clients)
  /\ forall key1 key2 provider2 client2 clients2,
       getAPIProvider key1 key2 clients' = inr (provider2, client2, clients2) ->
       provider2 = provider -> client2 = client /\ clients2 = clients'.
Proof.
  unfold getAPIProvider. cbv zeta.
  destruct (validKey "sk-ant" (Js.trim <$> ANTHROPIC_API_KEY)) eqn:Ha.
  - intros [= <- <- <-]. apply validKey_Some in Ha as (k & Hk & _).
    split; [|split].
    + intros ->. by rewrite Hk.
    + intros c Hc. rewrite Hc. by destruct clients; cbn in *; subst.
    + intros key1 key2 provider2 client2 clients2.
      destruct (validKey "sk-ant" (Js.trim <$> key1)).
      * cbn [Clients.anthropicClient Clients.openaiClient]. by intros [= <- <- <-].
      * destruct (validKey "sk-" (Js.trim <$> key2)); [|done].
        by intros [= <- <- <-].
  - destruct (validKey "sk-" (Js.trim <$> OPENAI_API_KEY)) eqn:Ho; [|done].
    intros [= <- <- <-]. apply validKey_Some in Ho as (k & Hk & _).
    split; [|split].
    + intros ->. by rewrite Hk.
    + intros c Hc. rewrite Hc. by destruct clients; cbn in *; subst.
    + intros key1 key2 provider2 client2 clients2.
      destruct (validKey "sk-ant" (Js.trim <$> key1)); [by intros [= <- <- <-]|].
      destruct (validKey "sk-" (Js.trim <$> key2)); [|done].
      cbn [Clients.anthropicClient Clients.openaiClient]. by intros [= <- <- <-].
Qed.

Lemma getAPIProvider_client_once_witness :
  getAPIProvider None (Some " sk-0123456789abcdefghij ")
    (Clients.mk None (Some "sk-an-older-key-0123456789"))
  = inr (openai, "sk-an-older-key-0123456789",
         Clients.mk None (Some "sk-an-older-key-0123456789")).
Proof.
  destruct (getAPIProvider None (Some " sk-0123456789abcdefghij ")
              (Clients.mk None (Some "sk-an-older-key-0123456789")))
    as [msg|[[provider client] clients']] eqn:Hcall;
    [vm_compute in Hcall; discriminate Hcall|].
  assert (provider = openai) as ->
    by (vm_compute in Hcall; by injection Hcall as <- _ _).
  destruct (getAPIProvider_client_once _ _ _ _ _ _ Hcall) as (_ & H & _).
  by destruct (H _ eq_refl) as [-> ->].
Defined.

(** ** The direct actions of the page *)

Lemma find_id (l : list Task) t :
  NoDup (ids l) -> t ∈ l ->
  List.find (fun u => bool_decide (Task.id u = Task.id t)) l = Some t.
Proof.
  intros Hnodup Ht. induction l as [|a l IH]; [by apply elem_of_nil in Ht|].
  cbn [List.find]. case_bool_decide as Hid.
  - f_equal. apply (NoDup_id_eq (a :: l)); [done| |done..].
    apply elem_of_cons. by left.
  - apply elem_of_cons in Ht as [->|Ht]; [done|].
    apply IH; [|done]. unfold ids in *. rewrite fmap_cons in Hnodup.
    by apply NoDup_cons in Hnodup as [_ ?].
Qed.

Lemma find_id_absent (l : list Task) taskId :
  taskId ∉ ids l ->
  List.find (fun u => bool_decide (Task.id u = taskId)) l = None.
Proof.
  intros Habs. apply find_None. intros u Hu.
  apply bool_decide_eq_false. intros Hid. apply Habs.
  rewrite <- Hid. by apply list_elem_of_fmap_2.
Qed.

Lemma completeTasks_absent taskId l w :
  taskId ∉ ids l -> completeTasks taskId l w = Return l w.
Proof.
  induction l as [|a l IH]; [done|]. unfold ids. rewrite fmap_cons.
  intros [Ha Hl]%not_elem_of_cons. cbn [completeTasks].
  rewrite bool_decide_eq_false_2 by congruence. unfold bind. by rewrite IH.
Qed.

(** With unique ids [completeTask] reads the clock once and changes one
    position. *)
Lemma completeTasks_unique taskId l i t w :
  NoDup (ids l) -> l !! i = Some t -> Task.id t = taskId ->
  completeTasks taskId l w
  = Return (<[i := markComplete (toISOString w (clock w (clock_reads w))) t]> l)
           (mkWorld (uuids w) (uuid_calls w) (clock w) (S (clock_reads w))
                    (toISOString w)).
Proof.
  revert i. induction l as [|a l IH]; intros i Hnodup Hi Hid; [done|].
  unfold ids in Hnodup. rewrite fmap_cons in Hnodup.
  apply NoDup_cons in Hnodup as [Ha Hl]. cbn [completeTasks].
  destruct i as [|i]; cbn in Hi.
  - injection Hi as ->. rewrite bool_decide_eq_true_2 by done.
    unfold bind at 1, nowISOString, bind at 1, newDate, isoString.
    unfold bind. rewrite completeTasks_absent by (by rewrite <- Hid).
    reflexivity.
  - rewrite bool_decide_eq_false_2.
    + unfold bind. by rewrite (IH i Hl Hi Hid).
    + intros Heq. apply Ha. rewrite Heq, <- Hid.
      apply list_elem_of_fmap_2. by eapply list_elem_of_lookup_2.
Qed.

Lemma markActive_markComplete now t :
  Task.completed t = false -> Task.completedAt t = None ->
  markActive (markComplete now t) = t.
Proof. destruct t. cbn. by intros -> ->. Qed.

(** X20. The check box of an item.  In a store with unique ids, a click on
    an active item reads the clock once, marks that position complete with
    the time read and reports [Completed "<title>"] with the check mark; a
    second click gives back the list of items as it was, and reports
    [Marked "<title>" as active].  The filter is kept; an id that is not in
    the store changes nothing, not even the message. *)
Theorem handleComplete_toggles
    (checkMark : string) (state : TaskState) (i : nat) (task : Task) (w : World) :
  NoDup (ids (TaskState.tasks state)) ->
  TaskState.tasks state !! i = Some task ->
  Task.completed task = false -> stamped task ->
  let now := toISOString w (clock w (clock_reads w)) in
  let w1 := mkWorld (uuids w) (uuid_calls w) (clock w) (S (clock_reads w))
                    (toISOString w) in
  let state1 :=
    TaskState.mk (<[i := markComplete now task]> (TaskState.tasks state))
                 (TaskState.filter state)
                 (Some ("Completed " +:+ Js.quoted (Task.title task) +:+ " "
                        +:+ checkMark)) in
  handleComplete checkMark (Task.id task) state w = Return state1 w1
  /\ handleComplete checkMark (Task.id task) state1 w1
     = Return (TaskState.mk (TaskState.tasks state) (TaskState.filter state)
                 (Some ("Marked " +:+ Js.quoted (Task.title task) +:+ " as active")))
              w1
  /\ forall taskId, taskId ∉ ids (TaskState.tasks state) ->
       handleComplete checkMark taskId state w = Return state w.
Proof.
  intros Hnodup Hi Hactive Hstamped now w1 state1.
  assert (Hat : Task.completedAt task = None).
  { destruct (Task.completedAt task) eqn:E; [|done].
    destruct Hstamped as [_ H]. rewrite H in Hactive by eauto. done. }
  pose proof (list_elem_of_lookup_2 _ _ _ Hi) as Hin.
  pose proof (lookup_lt_Some _ _ _ Hi) as Hlt.
  split; [|split].
  - unfold handleComplete. rewrite (find_id _ _ Hnodup Hin), Hactive.
    unfold bind, completeTask, bind.
    by rewrite (completeTasks_unique _ _ i task w Hnodup Hi eq_refl).
  - assert (Hi1 : TaskState.tasks state1 !! i = Some (markComplete now task)).
    { unfold state1. cbn [TaskState.tasks]. by apply list_lookup_insert_eq. }
    assert (Hnodup1 : NoDup (ids (TaskState.tasks state1))).
    { unfold state1, ids. cbn [TaskState.tasks].
      rewrite list_fmap_insert. cbn [markComplete Task.id].
      rewrite list_insert_id; [done|]. by rewrite list_lookup_fmap, Hi. }
    pose proof (find_id _ _ Hnodup1 (list_elem_of_lookup_2 _ _ _ Hi1)) as Hfind.
    cbn [markComplete Task.id] in Hfind.
    unfold handleComplete. rewrite Hfind.
    cbn [markComplete Task.completed Task.title Task.id]. unfold bind, ret.
    f_equal. unfold withMessage, uncompleteTask, state1.
    cbn [TaskState.tasks TaskState.filter TaskState.agentMessage]. f_equal.
    rewrite list_fmap_insert. cbn [markComplete Task.id].
    rewrite bool_decide_eq_true_2 by done.
    fold (markComplete now task). rewrite markActive_markComplete by done.
    assert (Hsame : TaskState.tasks (uncompleteTask state (Task.id task))
                    = TaskState.tasks state).
    { rewrite uncompleteTask_active; [done|].
      intros u Hu Hid.
      by rewrite (NoDup_id_eq _ u task Hnodup Hu Hin Hid). }
    unfold uncompleteTask in Hsame. cbn [TaskState.tasks] in Hsame.
    rewrite Hsame. by apply list_insert_id.
  - intros taskId Habs. unfold handleComplete. by rewrite find_id_absent.
Qed.

Lemma handleComplete_toggles_witness :
  handleComplete "v" "a" sampleState sampleWorld
  = Return (TaskState.mk
              [markComplete "T+0" milk; eggs; groceries] None
              (Some ("Completed " +:+ Js.quoted "Buy milk" +:+ " v")))
           (mkWorld (uuids sampleWorld) 0 (clock sampleWorld) 1
                    (toISOString sampleWorld)).
Proof.
  assert (Hnodup : NoDup (ids (TaskState.tasks sampleState))).
  { unfold sampleState, ids. cbn.
    repeat (apply NoDup_cons; split);
      [rewrite !elem_of_cons, elem_of_nil; intros [H|[H|[]]]; discriminate H
      |rewrite !elem_of_cons, elem_of_nil; intros [H|[]]; discriminate H
      |apply not_elem_of_nil
      |apply NoDup_nil_2]. }
  assert (Hstamped : stamped milk) by (split; [done | by intros [? ?]]).
  destruct (handleComplete_toggles "v" sampleState 0 milk sampleWorld
              Hnodup eq_refl eq_refl Hstamped) as [H _].
  exact H.
Defined.

(** X21. The delete button of an item.  In a store with unique ids, a click
    on the item at position [i] removes that position and no other and
    reports [Deleted "<title>"]; a second click with the same id, or a click
    with an id that is not in the store, changes nothing. *)
Theorem handleDelete_removes (state : TaskState) (i : nat) (task : Task) :
  NoDup (ids (TaskState.tasks state)) ->
  TaskState.tasks state !! i = Some task ->
  let state1 :=
    TaskState.mk (take i (TaskState.tasks state) ++ drop (S i) (TaskState.tasks state))
                 (TaskState.filter state)
                 (Some ("Deleted " +:+ Js.quoted (Task.title task))) in
  handleDelete (Task.id task) state = state1
  /\ handleDelete (Task.id task) state1 = state1
  /\ (task ∉ TaskState.tasks state1)
  /\ forall taskId, taskId ∉ ids (TaskState.tasks state) ->
       handleDelete taskId state = state.
Proof.
  intros Hnodup Hi state1.
  pose proof (list_elem_of_lookup_2 _ _ _ Hi) as Hin.
  assert (Hfirst : handleDelete (Task.id task) state = state1).
  { unfold handleDelete. rewrite (find_id _ _ Hnodup Hin).
    unfold withMessage, state1. f_equal.
    by apply deleteTask_at. }
  assert (Hgone : forall u, u ∈ TaskState.tasks state1 -> Task.id u <> Task.id task).
  { intros u Hu. rewrite <- Hfirst in Hu. unfold handleDelete in Hu.
    rewrite (find_id _ _ Hnodup Hin) in Hu. cbn [withMessage TaskState.tasks] in Hu.
    by apply deleteTask_elem in Hu as [_ ?]. }
  split; [done|]. split; [|split].
  - unfold handleDelete. rewrite find_id_absent; [done|].
    intros (u & Hid & Hu)%list_elem_of_fmap. by apply (Hgone u Hu).
  - intros Hu. by apply (Hgone task Hu).
  - intros taskId Habs. unfold handleDelete. by rewrite find_id_absent.
Qed.

Lemma handleDelete_removes_witness :
  handleDelete "b" sampleState
  = TaskState.mk [milk; groceries] None (Some ("Deleted " +:+ Js.quoted "Boil eggs")).
Proof.
  assert (Hnodup : NoDup (ids (TaskState.tasks sampleState))).
  { unfold sampleState, ids. cbn.
    repeat (apply NoDup_cons; split);
      [rewrite !elem_of_cons, elem_of_nil; intros [H|[H|[]]]; discriminate H
      |rewrite !elem_of_cons, elem_of_nil; intros [H|[]]; discriminate H
      |apply not_elem_of_nil
      |apply NoDup_nil_2]. }
  destruct (handleDelete_removes sampleState 1 eggs Hnodup eq_refl) as [H _].
  exact H.
Defined.

(** ** The number beside an item *)

Lemma filter_lookup_ge {A} (P : A -> Prop) `{!forall x, Decision (P x)}
    (l : list A) j x :
  base.filter P l !! j = Some x -> exists k, (j <= k)%nat /\ l !! k = Some x.
Proof.
  revert j. induction l as [|a l IH]; intros j; [done|].
  destruct (decide (P a)) as [Ha|Ha].
  - rewrite filter_cons_True by done. destruct j as [|j].
    + intros [= <-]. by exists 0%nat.
    + intros (k & Hk & Hx)%IH. exists (S k). split; [lia|done].
  - rewrite filter_cons_False by done.
    intros (k & Hk & Hx)%IH. exists (S k). split; [lia|done].
Qed.

(** X22. The number printed beside an item is its position in the list the
    filter leaves, counted from one.  [findTaskByIdentifier], which the
    executor calls on the whole store, resolves that number to the item at
    that position of the store: the item shown when no filter is set, and
    otherwise an item at or before the one shown. *)
Theorem displayedNumber_resolves (state : TaskState) (j : nat) (shown : Task) :
  filteredTasks state !! j = Some shown ->
  exists resolved k,
    findTaskByIdentifier (TaskState.tasks state) (displayedNumber j) = Some resolved
    /\ TaskState.tasks state !! j = Some resolved
    /\ TaskState.tasks state !! k = Some shown /\ (j <= k)%nat
    /\ (TaskState.filter state = None -> resolved = shown).
Proof.
  unfold filteredTasks. intros Hshown.
  assert (Hk : exists k, (j <= k)%nat /\ TaskState.tasks state !! k = Some shown).
  { rewrite filterTasks_shows in Hshown. by eapply filter_lookup_ge. }
  destruct Hk as (k & Hjk & Hk).
  pose proof (lookup_lt_Some _ _ _ Hk) as Hlt.
  destruct (lookup_lt_is_Some_2 (TaskState.tasks state) j) as [resolved Hj]; [lia|].
  exists resolved, k.
  assert (Hnum : displayedNumber j = numeral (S j)).
  { unfold displayedNumber, number_string.
    destruct (Z.ltb_spec (Z.of_nat j + 1) 0); [lia|]. f_equal. lia. }
  rewrite Hnum, findTaskByIdentifier_numeral' by lia.
  replace (S j - 1)%nat with j by lia.
  repeat split; try done.
  intros Hnone. rewrite Hnone in Hshown. cbn in Hshown. congruence.
Qed.

Lemma displayedNumber_resolves_witness :
  filteredTasks (TaskState.mk [milk; eggs; groceries] (Some "completed:true") None)
    !! 0%nat = Some eggs
  /\ findTaskByIdentifier [milk; eggs; groceries] (displayedNumber 0) = Some milk.
Proof.
  split; [reflexivity|].
  destruct (displayedNumber_resolves
              (TaskState.mk [milk; eggs; groceries] (Some "completed:true") None)
              0 eggs eq_refl) as (resolved & k & Hfind & Hj & _).
  cbn [TaskState.tasks] in Hfind, Hj. rewrite Hfind. symmetry. exact Hj.
Defined.

(** ** The message of a reply *)

Lemma reply_text_last before t after text :
  Forall (fun block => forall t', block <> TextBlock t') after ->
  reply_text (before ++ TextBlock t :: after) text = t.
Proof.
  intros Hafter. unfold reply_text. rewrite foldl_app. cbn [foldl].
  generalize (foldl (fun text block => match block with
                                       | TextBlock t0 => t0
                                       | _ => text
                                       end) text before). intros _.
  induction Hafter as [|block after Hblock _ IH]; [done|].
  cbn [foldl]. destruct block as [t'| |]; [by destruct (Hblock t')|done..].
Qed.

Lemma reply_text_none content text :
  Forall (fun block => forall t', block <> TextBlock t') content ->
  reply_text content text = text.
Proof.
  intros Hcontent. unfold reply_text.
  induction Hcontent as [|block content Hblock _ IH]; [done|].
  cbn [foldl]. destruct block as [t'| |]; [by destruct (Hblock t')|done..].
Qed.

Lemma finish_message final sums text :
  finish (Loop.mk final sums text)
  = withMessage final (if bool_decide (text = "") then aggregate sums else text).
Proof.
  case_bool_decide as Htext; [subst; apply finish_aggregate|].
  unfold finish. cbn [Loop.updatedState Loop.actionsTaken Loop.agentTextResponse].
  rewrite (bool_decide_eq_false_2 (text = "")) by done. cbn [andb].
  by rewrite bool_decide_eq_false_2.
Qed.

Lemma aggregate_nonempty sums : aggregate sums <> "".
Proof. destruct sums; [done|]. apply (joinedSummary_nonempty (s :: sums)). Qed.

(** X23. The message of a reply that returns.  It is the text of the last
    text block when that text is not empty -- an earlier text is dropped, not
    joined; otherwise the summaries of the tool calls joined in order, or
    [Done!] when there is none.  The message is never empty, and the message
    the store came with is never kept. *)
Theorem callAnthropicAPI_message
    (content : list ContentBlock) (store : TaskState) (w : World)
    (final : TaskState) (w' : World) :
  callAnthropicAPI content store w = Return final w' ->
  exists result sums,
    applyBatch_spec store (requests_of content) w = Return (result, sums) w'
    /\ TaskState.agentMessage final
       = Some (if bool_decide (reply_text content "" = "")
               then aggregate sums else reply_text content "")
    /\ TaskState.agentMessage final <> Some ""
    /\ (forall before t after,
          content = (before ++ TextBlock t :: after)%list ->
          Forall (fun block => forall t', block <> TextBlock t') after ->
          reply_text content "" = t)
    /\ (Forall (fun block => forall t', block <> TextBlock t') content ->
        reply_text content "" = "").
Proof.
  unfold callAnthropicAPI, bind. rewrite processBlocks_spec.
  cbn [Loop.updatedState Loop.actionsTaken Loop.agentTextResponse].
  destruct (applyBatch_spec store (requests_of content) w)
    as [[result sums] w1|e]; [|done].
  cbn [ret fst snd app]. rewrite finish_message. intros [= <- <-].
  exists result, sums. split; [done|]. split; [done|]. split; [|split].
  - cbn [withMessage TaskState.agentMessage]. intros [= H].
    case_bool_decide as Htext; [by apply aggregate_nonempty in H | done].
  - intros before t after -> Hafter. by apply reply_text_last.
  - apply reply_text_none.
Qed.

Lemma callAnthropicAPI_message_witness :
  exists final w',
    callAnthropicAPI [TextBlock "On it"; ToolUseBlock "add_task" (addRequest "buy milk" medium).2;
                      TextBlock ""]
                     createInitialState sampleWorld = Return final w'
    /\ TaskState.agentMessage final = Some ("Added " +:+ Js.quoted "buy milk" +:+ ".").
Proof.
  destruct (callAnthropicAPI
              [TextBlock "On it"; ToolUseBlock "add_task" (addRequest "buy milk" medium).2;
               TextBlock ""] createInitialState sampleWorld)
    as [final w'|e] eqn:Hcall; [|vm_compute in Hcall; discriminate Hcall].
  exists final, w'. split; [reflexivity|].
  destruct (callAnthropicAPI_message _ _ _ _ _ Hcall)
    as (result & sums & Hbatch & Hmsg & _).
  rewrite Hmsg. vm_compute in Hbatch. injection Hbatch as _ <- _. reflexivity.
Defined.

(** ** Requests that lack a required property *)

#[local] Instance well_formed_dec (r : Request) : Decision (well_formed r).
Proof. unfold well_formed. apply _. Defined.

Lemma processToolCall_throws (r : Request) state w :
  ~ well_formed r ->
  exists what, processToolCall r.1 r.2 state w = Throw (TypeError what).
Proof.
  destruct r as [toolName input]. unfold well_formed. cbn [fst snd]. intros Hnot.
  destruct (toolName_cases toolName) as [->|[->|[->|[->|[->|Hother]]]]].
  - destruct (Input.title input) eqn:Htitle.
    + exfalso. apply Hnot. split; [eauto|].
      rewrite !elem_of_cons, elem_of_nil. intros [H|[H|[H|[]]]]; discriminate H.
    + exists "trim". by apply add_task_absent_title.
  - destruct (Input.taskIdentifier input) eqn:Hid.
    + exfalso. apply Hnot. split; [intros H; discriminate H | eauto].
    + exists "toLowerCase". rewrite processToolCall_complete_task.
      unfold bind at 1. by rewrite Hid.
  - destruct (Input.taskIdentifier input) eqn:Hid.
    + exfalso. apply Hnot. split; [intros H; discriminate H | eauto].
    + exists "toLowerCase". rewrite processToolCall_uncomplete_task.
      unfold bind at 1. by rewrite Hid.
  - destruct (Input.taskIdentifier input) eqn:Hid.
    + exfalso. apply Hnot. split; [intros H; discriminate H | eauto].
    + exists "toLowerCase". rewrite processToolCall_delete_task.
      unfold bind at 1. by rewrite Hid.
  - exfalso. apply Hnot. split; [intros H; discriminate H|].
    rewrite !elem_of_cons, elem_of_nil. intros [H|[H|[H|[]]]]; discriminate H.
  - exfalso. apply Hnot. split.
    + intros ->. exfalso. apply Hother. rewrite !elem_of_cons. auto.
    + rewrite !elem_of_cons, elem_of_nil.
      intros [->|[->|[->|[]]]]; exfalso; apply Hother; rewrite !elem_of_cons; auto 10.
Qed.

Lemma applyBatch_spec_throws before r rest store w :
  Forall well_formed before -> ~ well_formed r ->
  exists what, applyBatch_spec store (before ++ r :: rest) w = Throw (TypeError what).
Proof.
  intros Hbefore Hnot. revert store w.
  induction Hbefore as [|request before Hreq _ IH]; intros store w.
  - destruct (processToolCall_throws r store w Hnot) as [what Hthrow].
    exists what. cbn [app applyBatch_spec]. unfold bind. by rewrite Hthrow.
  - destruct (processToolCall_returns request store w Hreq) as (result & w1 & Hcall).
    destruct (IH (ToolResult.state result) w1) as [what Hthrow].
    exists what. rewrite <- app_comm_cons. cbn [applyBatch_spec].
    unfold bind at 1. rewrite Hcall. unfold bind at 1. by rewrite Hthrow.
Qed.

(** X24. A reply is all or nothing.  It returns a store exactly when every
    tool call carries the property its tool reads first: [title] for
    [add_task], [taskIdentifier] for the three actions on an item.  At the
    first call that lacks it the handler throws a [TypeError], whatever
    follows, and the store the calls before it produced is not returned. *)
Theorem callAnthropicAPI_all_or_nothing
    (requests : list Request) (store : TaskState) (w : World) :
  ((exists final w', callAnthropicAPI (toolUses requests) store w = Return final w')
   <-> Forall well_formed requests)
  /\ forall before r rest,
       requests = (before ++ r :: rest)%list ->
       Forall well_formed before -> ~ well_formed r ->
       exists what,
         callAnthropicAPI (toolUses requests) store w = Throw (TypeError what)
         /\ callOpenAIAPI None
              (Some ((fun r : Request => FunctionCall r.1 r.2) <$> requests)) store w
            = Throw (TypeError what).
Proof.
  assert (Hthrow : forall before r rest,
            requests = (before ++ r :: rest)%list ->
            Forall well_formed before -> ~ well_formed r ->
            exists what,
              callAnthropicAPI (toolUses requests) store w = Throw (TypeError what)).
  { intros before r rest -> Hbefore Hnot.
    destruct (applyBatch_spec_throws before r rest store w Hbefore Hnot)
      as [what Hwhat].
    exists what. by rewrite callAnthropicAPI_toolUses, Hwhat. }
  split.
  - split.
    + intros (final & w' & Hcall).
      destruct (decide (Forall well_formed requests)) as [|Hnot]; [done|].
      apply not_Forall_Exists in Hnot; [|apply _].
      exfalso.
      assert (Hfirst : exists before r rest,
                requests = (before ++ r :: rest)%list
                /\ Forall well_formed before /\ ~ well_formed r).
      { clear Hcall Hthrow.
        induction requests as [|a l IH]; [by apply Exists_nil in Hnot|].
        destruct (decide (well_formed a)) as [Ha|Ha].
        - apply Exists_cons in Hnot as [Hnot|Hnot]; [done|].
          destruct (IH Hnot) as (before & r & rest & -> & Hbefore & Hr).
          exists (a :: before), r, rest. split; [done|].
          split; [by constructor | done].
        - exists [], a, l. by repeat split. }
      destruct Hfirst as (before & r & rest & Heq & Hbefore & Hr).
      destruct (Hthrow before r rest Heq Hbefore Hr) as [what Hwhat].
      congruence.
    + intros Hwf.
      destruct (applyBatch_spec_returns requests store w Hwf)
        as (final & sums & w' & Hrun).
      eexists _, w'. by rewrite callAnthropicAPI_toolUses, Hrun.
  - intros before r rest Heq Hbefore Hnot.
    destruct (Hthrow before r rest Heq Hbefore Hnot) as [what Hwhat].
    exists what. split; [done|]. by rewrite callOpenAIAPI_toolUses.
Qed.

Lemma callAnthropicAPI_all_or_nothing_witness :
  exists what,
    callAnthropicAPI
      (toolUses [addRequest "buy milk" medium;
                 ("complete_task", (addRequest "1" medium).2)])
      createInitialState sampleWorld = Throw (TypeError what).
Proof.
  destruct (callAnthropicAPI_all_or_nothing
              [addRequest "buy milk" medium;
               ("complete_task", (addRequest "1" medium).2)]
              createInitialState sampleWorld) as [_ Hthrows].
  destruct (Hthrows [addRequest "buy milk" medium]
              ("complete_task", (addRequest "1" medium).2) [] eq_refl)
    as (what & Hwhat & _).
  - apply Forall_singleton. unfold addRequest. well_formed_literal.
  - intros [_ Hid]. cbn [fst snd] in Hid.
    destruct Hid as [? Hsome]; [rewrite !elem_of_cons; auto | discriminate Hsome].
  - by exists what.
Defined.

(** ** The [filter_tasks] action *)


(** ** The direct actions keep the invariants *)

Lemma find_elem {A} (p : A -> bool) (l : list A) x :
  List.find p l = Some x -> x ∈ l.
Proof. intros (i & Hi & _)%find_first. by eapply list_elem_of_lookup_2. Qed.

(** X26. The direct actions on a store whose items satisfy the invariant
    ([completedAt] present exactly when [completed]), for every id.  The
    check box always returns and keeps the number and the order of the
    items, their id, title, priority, category and [createdAt], the filter
    and the invariant; the delete button leaves a subsequence and keeps the
    filter and the invariant; a change of filter keeps the items. *)
Theorem direct_actions_keep_invariant
    (toUpperCase : string -> string) (checkMark taskId : string)
    (filter : option string) (state : TaskState) (w : World) :
  Forall stamped (TaskState.tasks state) ->
  (exists state' w',
      handleComplete checkMark taskId state w = Return state' w'
      /\ later w w'
      /\ identity <$> TaskState.tasks state' = identity <$> TaskState.tasks state
      /\ TaskState.filter state' = TaskState.filter state
      /\ Forall stamped (TaskState.tasks state'))
  /\ (TaskState.tasks (handleDelete taskId state) `sublist_of` TaskState.tasks state
      /\ TaskState.filter (handleDelete taskId state) = TaskState.filter state
      /\ Forall stamped (TaskState.tasks (handleDelete taskId state)))
  /\ TaskState.tasks (handleFilterChange toUpperCase filter state)
     = TaskState.tasks state
  /\ TaskState.filter (handleFilterChange toUpperCase filter state) = filter.
Proof.
  intros Hs. split; [|split; [|done]].
  - unfold handleComplete.
    destruct (List.find _ _) as [task|];
      [|exists state, w; by split; [|split; [apply later_refl|]]].
    destruct (Task.completed task).
    + eexists _, w. split; [reflexivity|]. split; [apply later_refl|].
      cbn [withMessage TaskState.tasks TaskState.filter].
      split; [apply identity_uncompleteTask|]. split; [done|].
      by apply stamped_uncompleteTask.
    + destruct (completeTask_spec state taskId w)
        as (l' & w' & Hrun & Hlater & Hall).
      eexists _, w'. unfold bind. rewrite Hrun. split; [reflexivity|].
      split; [done|]. cbn [withMessage TaskState.tasks TaskState.filter].
      split; [by eapply identity_completed_by|]. split; [done|].
      by eapply stamped_completed_by.
  - unfold handleDelete. destruct (List.find _ _) as [task|]; [|done].
    cbn [withMessage TaskState.tasks TaskState.filter].
    split; [apply sublist_filter|]. split; [done|].
    by apply stamped_deleteTask.
Qed.

Lemma direct_actions_keep_invariant_witness :
  exists state' w',
    handleComplete "v" "b" sampleState sampleWorld = Return state' w'
    /\ Forall stamped (TaskState.tasks state').
Proof.
  assert (Hs : Forall stamped (TaskState.tasks sampleState)).
  { repeat (apply Forall_cons; split); [..|apply Forall_nil_2];
      (split; [try done; by eexists | try done; by intros [? ?]]). }
  destruct (direct_actions_keep_invariant (fun s => s) "v" "b" None
              sampleState sampleWorld Hs)
    as [(state' & w' & Hrun & _ & _ & _ & Hs') _].
  by exists state', w'.
Defined.
